(** * yt_shorts: segment parsing, ratio/resolution resolution, crop geometry
      and the per-segment processing loop

    A shallow embedding of [yt_shorts.py].  Python values are modelled as the
    interpreter has them:
    - [str] as [string]; a character is a code point below 256, so that the
      regular-expression class [\d] is [0-9] and the white space of [\s],
      [str.strip] and [float] is 09-0D, 1C-20, 85 and A0;
    - [int] as [Z]; [int] of a run of digits is its value when the run has
      at most 4300 digits, the interpreter's default limit, and a
      [ValueError] beyond it; [float] as a binary64 [spec_float], rounded
      to nearest even by the operations of [SpecFloat]; a number is one or
      the other and comparisons between the two are exact, as in Python;
    - an exception as a value of [exn], raised through the [result] monad;
    - the media toolkit (moviepy) as an interface, [MediaToolkit], whose
      writes go to an explicit world. *)

From Stdlib Require Import ZArith QArith Qabs Qround Bool List String Ascii Lia.
From Stdlib Require Import DecimalString.
From Stdlib Require Import SpecFloat.
Import ListNotations.

Local Open Scope string_scope.
Local Open Scope list_scope.
Local Open Scope Z_scope.

(** ** Exceptions and the result monad *)

(** Every failure of the parsers is a Python [ValueError]; the constructors
    tell the messages apart.  [UnpackError n] is the [ValueError] of a tuple
    assignment [a, b = l] where [l] has [n <> 2] items, and
    [DigitLimitError] the one of [int] on a text of too many digits. *)
Inductive exn : Type :=
| InvalidTimeFormat (token : string)
| InvalidSegment (part : string)
| InvalidRatio
| InvalidResolution
| UnpackError (got : nat)
| ZeroDivisionError
| OverflowError
| NanToIntError
| FloatSyntaxError (text : string)
| ToolkitError (what : string)
| DigitLimitError.

Inductive result (A : Type) : Type :=
| Ok (a : A)
| Raise (e : exn).

Arguments Ok {A} a.
Arguments Raise {A} e.

Definition bind {A B : Type} (c : result A) (k : A -> result B) : result B :=
  match c with
  | Ok a => k a
  | Raise e => Raise e
  end.

Notation "x <- c ;; k" := (bind c (fun x => k))
  (at level 61, c at next level, right associativity).
Notation "' pat <- c ;; k" := (bind c (fun x => match x with pat => k end))
  (at level 61, pat pattern, c at next level, right associativity).

(** ** Python strings *)

Module PyStr.

Definition LF : ascii := "010"%char.

Definition code (c : ascii) : N := N_of_ascii c.

(** [\d] *)
Definition is_digit (c : ascii) : bool :=
  ((48 <=? code c) && (code c <=? 57))%N.

(** [\s], and the characters [str.strip()] removes *)
Definition is_space (c : ascii) : bool :=
  (((9 <=? code c) && (code c <=? 13)) || ((28 <=? code c) && (code c <=? 32))
   || (code c =? 133) || (code c =? 160))%N.

Definition digit_value (c : ascii) : Z := Z.of_N (code c) - 48.

(** [int(s)] on a run of digits *)
Fixpoint int_from (acc : Z) (s : string) : Z :=
  match s with
  | EmptyString => acc
  | String c r => int_from (10 * acc + digit_value c) r
  end.

Definition int_of_digits (s : string) : Z := int_from 0 s.

(** [c * n] *)
Fixpoint replicate (n : nat) (c : ascii) : string :=
  match n with
  | O => EmptyString
  | S n' => String c (replicate n' c)
  end.

(** [sys.get_int_max_str_digits()], which the program leaves at its
    default. *)
Definition int_max_str_digits : Z := 4300.

(** [int(s)] on a run of digits: the value of the run, and the
    [ValueError] of the conversion when the run has more digits than the
    limit, leading zeros counted. *)
Definition int_of_str (s : string) : result Z :=
  if Z.of_nat (String.length s) <=? int_max_str_digits
  then Ok (int_of_digits s)
  else Raise DigitLimitError.

Fixpoint all_digits (s : string) : bool :=
  match s with
  | EmptyString => true
  | String c r => is_digit c && all_digits r
  end.

Definition is_empty (s : string) : bool :=
  match s with EmptyString => true | String _ _ => false end.

(** [c in s] *)
Fixpoint contains (c : ascii) (s : string) : bool :=
  match s with
  | EmptyString => false
  | String a r => Ascii.eqb a c || contains c r
  end.

(** [s.count(c)] *)
Fixpoint count (c : ascii) (s : string) : nat :=
  match s with
  | EmptyString => O
  | String a r => if Ascii.eqb a c then S (count c r) else count c r
  end.

(** [s.split(c)] for a one-character separator: never empty, one more
    piece than separators. *)
Fixpoint split (c : ascii) (s : string) : list string :=
  match s with
  | EmptyString => [EmptyString]
  | String a r =>
      if Ascii.eqb a c then EmptyString :: split c r
      else match split c r with
           | piece :: pieces => String a piece :: pieces
           | [] => [String a EmptyString]
           end
  end.

(** [c.join(l)] *)
Fixpoint join (c : ascii) (l : list string) : string :=
  match l with
  | [] => EmptyString
  | [p] => p
  | p :: rest => (p ++ String c (join c rest))%string
  end.

Fixpoint lstrip (s : string) : string :=
  match s with
  | EmptyString => EmptyString
  | String c r => if is_space c then lstrip r else s
  end.

Fixpoint rstrip (s : string) : string :=
  match s with
  | EmptyString => EmptyString
  | String c r =>
      let r' := rstrip r in
      if is_empty r' && is_space c then EmptyString else String c r'
  end.

(** [s.strip()] *)
Definition strip (s : string) : string := rstrip (lstrip s).

(** The longest run of digits at the head of [s], and what follows: a
    greedy [\d*]. *)
Fixpoint span_digits (s : string) : string * string :=
  match s with
  | EmptyString => (EmptyString, EmptyString)
  | String c r =>
      if is_digit c
      then let (d, t) := span_digits r in (String c d, t)
      else (EmptyString, s)
  end.

Definition head_is_digit (s : string) : bool :=
  match s with
  | String c _ => is_digit c
  | EmptyString => false
  end.

Fixpoint no_space (s : string) : bool :=
  match s with
  | EmptyString => true
  | String c r => negb (is_space c) && no_space r
  end.

(** At most [n] digits at the head of [s]: a greedy [\d{0,n}]. *)
Fixpoint span_digits_upto (n : nat) (s : string) : string * string :=
  match n, s with
  | S n', String c r =>
      if is_digit c
      then let (d, t) := span_digits_upto n' r in (String c d, t)
      else (EmptyString, s)
  | _, _ => (EmptyString, s)
  end.

(** [$] without [re.MULTILINE]: the end of the text, or just before a line
    feed that ends it. *)
Definition at_dollar (s : string) : bool :=
  match s with
  | EmptyString => true
  | String c EmptyString => Ascii.eqb c LF
  | _ => false
  end.

(** A literal character of a pattern: what follows it in [s], if [s]
    starts with it. *)
Definition expect (c : ascii) (s : string) : option string :=
  match s with
  | String a r => if Ascii.eqb a c then Some r else None
  | EmptyString => None
  end.

(** [re.match(r"^\d+(\.\d+)?$", s)] *)
Definition re_plain (s : string) : bool :=
  let (d, r) := span_digits s in
  if is_empty d then false
  else if at_dollar r then true
  else match expect "." r with
       | Some r1 =>
           let (f, r2) := span_digits r1 in
           negb (is_empty f) && at_dollar r2
       | None => false
       end.

(** [re.match(r"^(\d+):(\d{1,2})(?::(\d{1,2}))?$", s)]: the groups 1, 2
    and 3, the last [None] when the optional part matched nothing. *)
Definition re_hms (s : string) : option (string * string * option string) :=
  let (g1, r) := span_digits s in
  if is_empty g1 then None
  else match expect ":" r with
       | Some r1 =>
           let (g2, r2) := span_digits_upto 2 r1 in
           if is_empty g2 then None
           else if at_dollar r2 then Some (g1, g2, None)
           else match expect ":" r2 with
                | Some r3 =>
                    let (g3, r4) := span_digits_upto 2 r3 in
                    if negb (is_empty g3) && at_dollar r4
                    then Some (g1, g2, Some g3)
                    else None
                | None => None
                end
       | None => None
       end.

(** [re.match(r"^(\d+)\s*:\s*(\d+)$", s)] *)
Definition re_ratio (s : string) : option (string * string) :=
  let (g1, r) := span_digits s in
  if is_empty g1 then None
  else match expect ":" (lstrip r) with
       | Some r1 =>
           let (g2, r2) := span_digits (lstrip r1) in
           if negb (is_empty g2) && at_dollar r2 then Some (g1, g2) else None
       | None => None
       end.

(** [re.match(r"^(\d+)x(\d+)$", s)] *)
Definition re_resolution (s : string) : option (string * string) :=
  let (g1, r) := span_digits s in
  if is_empty g1 then None
  else match expect "x" r with
       | Some r1 =>
           let (g2, r2) := span_digits r1 in
           if negb (is_empty g2) && at_dollar r2 then Some (g1, g2) else None
       | None => None
       end.

(** [str(i)] for a natural number *)
Definition str_of_nat (i : nat) : string :=
  NilZero.string_of_uint (Nat.to_uint i).

End PyStr.

(** ** Python numbers *)

Module PyNum.

(** binary64 *)
Definition prec : Z := 53.
Definition emax : Z := 1024.

Definition float : Type := spec_float.

(** A Python number as the parsers produce and compare them. *)
Inductive number : Type :=
| PInt (z : Z)
| PFloat (f : float).

(** *** Exact values, for comparisons *)

(** The value of a number that is not a NaN: a rational or an infinity. *)
Inductive xreal : Type :=
| NegInf
| Fin (q : Q)
| PosInf.

Definition finite_value (s : bool) (m : positive) (e : Z) : Q :=
  let mag :=
    match e with
    | Z0 => Zpos m # 1
    | Zpos p => (Zpos m * 2 ^ Zpos p) # 1
    | Zneg p => Zpos m # (2 ^ p)%positive
    end in
  if s then Qopp mag else mag.

Definition float_value (f : float) : option xreal :=
  match f with
  | S754_zero _ => Some (Fin (0 # 1))
  | S754_infinity s => Some (if s then NegInf else PosInf)
  | S754_nan => None
  | S754_finite s m e => Some (Fin (finite_value s m e))
  end.

Definition value (n : number) : option xreal :=
  match n with
  | PInt z => Some (Fin (inject_Z z))
  | PFloat f => float_value f
  end.

Definition xcompare (x y : xreal) : comparison :=
  match x, y with
  | NegInf, NegInf => Eq
  | NegInf, _ => Lt
  | _, NegInf => Gt
  | PosInf, PosInf => Eq
  | PosInf, _ => Gt
  | _, PosInf => Lt
  | Fin p, Fin q => Qcompare p q
  end.

(** [a ? b] for the comparison operators: exact between [int] and [float],
    and every comparison with a NaN is [False]. *)
Definition compare (a b : number) : option comparison :=
  match value a, value b with
  | Some x, Some y => Some (xcompare x y)
  | _, _ => None
  end.

Definition py_lt (a b : number) : bool :=
  match compare a b with Some Lt => true | _ => false end.

Definition py_le (a b : number) : bool :=
  match compare a b with Some Lt | Some Eq => true | _ => false end.

Definition py_gt (a b : number) : bool := py_lt b a.

Definition py_ge (a b : number) : bool := py_le b a.

Definition py_eq (a b : number) : bool :=
  match compare a b with Some Eq => true | _ => false end.

(** [min(a, b)]: the first argument unless the second is smaller. *)
Definition py_min (a b : number) : number := if py_lt b a then b else a.

(** *** Arithmetic *)

(** An integer as an unrounded binary number. *)
Definition exact_of_Z (z : Z) : float :=
  match z with
  | Z0 => S754_zero false
  | Zpos p => S754_finite false p 0
  | Zneg p => S754_finite true p 0
  end.

Definition is_infinity (f : float) : bool :=
  match f with S754_infinity _ => true | _ => false end.

Definition is_zero (f : float) : bool :=
  match f with S754_zero _ => true | _ => false end.

(** Zero, or above zero: the sign bit is clear and the number is not a
    NaN. *)
Definition is_nonneg (f : float) : bool :=
  match f with
  | S754_zero _ => true
  | S754_finite s _ _ => negb s
  | S754_infinity s => negb s
  | S754_nan => false
  end.

(** [float(z)] for an [int]: correctly rounded, [OverflowError] when out
    of range. *)
Definition float_of_int (z : Z) : result float :=
  let f := binary_normalize prec emax z 0 false in
  if is_infinity f then Raise OverflowError else Ok f.

(** [a / b] for two [int]s: the correctly rounded quotient. *)
Definition int_truediv (a b : Z) : result float :=
  if b =? 0 then Raise ZeroDivisionError
  else
    let q := SFdiv prec emax (exact_of_Z a) (exact_of_Z b) in
    if is_infinity q then Raise OverflowError else Ok q.

(** [x - y], [x * y], [x / y] and [abs(x)] for two [float]s *)
Definition float_sub (x y : float) : float := SFsub prec emax x y.

Definition float_mul (x y : float) : float := SFmul prec emax x y.

Definition float_div (x y : float) : result float :=
  if is_zero y then Raise ZeroDivisionError else Ok (SFdiv prec emax x y).

Definition float_abs (x : float) : float := SFabs x.

(** [z * y] and [z / y] for an [int] and a [float]: the [int] is converted
    first. *)
Definition int_mul_float (z : Z) (y : float) : result float :=
  x <- float_of_int z ;; Ok (float_mul x y).

Definition int_div_float (z : Z) (y : float) : result float :=
  x <- float_of_int z ;; float_div x y.

(** The integer part of a finite binary number, towards zero. *)
Definition truncate (s : bool) (m : positive) (e : Z) : Z :=
  let mag :=
    match e with
    | Z0 => Zpos m
    | Zpos p => Zpos m * 2 ^ Zpos p
    | Zneg p => Zpos m / 2 ^ Zpos p
    end in
  if s then - mag else mag.

(** [int(x)] for a [float] *)
Definition int_of_float (x : float) : result Z :=
  match x with
  | S754_zero _ => Ok 0
  | S754_finite s m e => Ok (truncate s m e)
  | S754_infinity _ => Raise OverflowError
  | S754_nan => Raise NanToIntError
  end.

(** The decimal [n * 10^-k] as the nearest [float]: what a literal such as
    [1e-6], and [float] on a text of decimal digits, evaluate to. *)
Definition float_of_decimal (n : Z) (k : nat) : float :=
  SFdiv prec emax (exact_of_Z n) (exact_of_Z (10 ^ Z.of_nat k)).

(** [float(s)] on the texts the time parser passes to it, a run of digits
    with an optional fraction inside optional white space; [None] on any
    other text.  The rest of the grammar of [float] (signs, exponents,
    underscores, [inf], [nan]) is not modelled: no call reaches it. *)
Definition py_float (s : string) : option float :=
  let (d, r) := PyStr.span_digits (PyStr.strip s) in
  if PyStr.is_empty d then None
  else if PyStr.is_empty r
  then Some (float_of_decimal (PyStr.int_of_digits d) 0)
  else match PyStr.expect "." r with
       | Some r1 =>
           let (f, r2) := PyStr.span_digits r1 in
           if negb (PyStr.is_empty f) && PyStr.is_empty r2
           then Some (float_of_decimal
                        (PyStr.int_of_digits (d ++ f)%string) (String.length f))
           else None
       | None => None
       end.

(** The literal [1e-6] *)
Definition float_1e_6 : float := float_of_decimal 1 6.

End PyNum.

(** ** The program *)

Module YtShorts.
Import PyStr PyNum.

(** *** Time parser *)

Definition parse_time (s : string) : result number :=
  if re_plain s then
    match py_float s with
    | Some f => Ok (PFloat f)
    | None => Raise (FloatSyntaxError s)
    end
  else
    match re_hms s with
    | None => Raise (InvalidTimeFormat s)
    | Some (g1, g2, g3) =>
        h <- int_of_str g1 ;;
        mm <- int_of_str g2 ;;
        ss <- match g3 with Some g => int_of_str g | None => Ok 0 end ;;
        Ok (PInt (h * 3600 + mm * 60 + ss))
    end.

(** *** Segment spec parser *)

Definition segment : Type := number * number.

(** [a, b = l] *)
Definition unpack2 (l : list string) : result (string * string) :=
  match l with
  | [a; b] => Ok (a, b)
  | _ => Raise (UnpackError (List.length l))
  end.

(** [[p.strip() for p in spec.split(",") if p.strip()]] *)
Definition spec_parts (spec : string) : list string :=
  map strip (filter (fun p => negb (is_empty (strip p))) (split "," spec)).

(** The test that chooses the separator of a part. *)
Definition colon_pair (part : string) : bool :=
  negb (contains "-" part) && contains ":" part && (count ":" part =? 1)%nat.

Definition split_part (part : string) : result (string * string) :=
  if colon_pair part then unpack2 (split ":" part)
  else unpack2 (split "-" part).

(** One turn of the loop: [Some] of the segment to append, [None] on
    [continue]. *)
Definition segment_of_part (part : string) (duration : number)
  : result (option segment) :=
  '(a, b) <- split_part part ;;
  start <- parse_time a ;;
  end_ <- parse_time b ;;
  if py_lt start (PInt 0) || py_le end_ start then Raise (InvalidSegment part)
  else if py_ge start duration then Ok None
  else Ok (Some (start, py_min end_ duration)).

Fixpoint collect_segments (parts : list string) (duration : number)
         (segments : list segment) : result (list segment) :=
  match parts with
  | [] => Ok segments
  | part :: rest =>
      r <- segment_of_part part duration ;;
      match r with
      | None => collect_segments rest duration segments
      | Some seg => collect_segments rest duration (segments ++ [seg])
      end
  end.

Definition parse_segments (spec : string) (duration : number)
  : result (list segment) :=
  collect_segments (spec_parts spec) duration [].

(** *** Ratio and resolution *)

Definition ratio_from_string (s : string) : result (Z * Z) :=
  match re_ratio s with
  | None => Raise InvalidRatio
  | Some (g1, g2) =>
      w <- int_of_str g1 ;;
      h <- int_of_str g2 ;;
      Ok (w, h)
  end.

(** [arg] is [None] or a text; the empty text is false, as [None] is. *)
Definition resolution_from_arg (arg : option string) (aspect : Z * Z)
  : result (Z * Z) :=
  match arg with
  | Some (String _ _ as s) =>
      match re_resolution s with
      | None => Raise InvalidResolution
      | Some (g1, g2) =>
          w <- int_of_str g1 ;;
          h <- int_of_str g2 ;;
          Ok (w, h)
      end
  | _ =>
      let '(aw, ah) := aspect in
      if (aw =? 9) && (ah =? 16) then Ok (1080, 1920) else Ok (1920, 1080)
  end.

(** *** Crop geometry *)

Record rect : Type := Rect { x1 : Z; y1 : Z; x2 : Z; y2 : Z }.

(** The arithmetic of [crop_to_ratio] on the size of the clip: [None] when
    the clip is returned as it is, [Some] of the arguments of [clip.crop]
    otherwise. *)
Definition crop_rect (size : Z * Z) (target_ratio : Z * Z)
  : result (option rect) :=
  let '(w, h) := size in
  let '(trw, trh) := target_ratio in
  target <- int_truediv trw trh ;;
  current <- int_truediv w h ;;
  if py_lt (PFloat (float_abs (float_sub current target))) (PFloat float_1e_6)
  then Ok None
  else if py_gt (PFloat current) (PFloat target) then
    p <- int_mul_float h target ;;
    new_w <- int_of_float p ;;
    let x1 := (w - new_w) / 2 in
    let x2 := x1 + new_w in
    Ok (Some (Rect x1 0 x2 h))
  else
    q <- int_div_float w target ;;
    new_h <- int_of_float q ;;
    let y1 := (h - new_h) / 2 in
    let y2 := y1 + new_h in
    Ok (Some (Rect 0 y1 w y2)).

(** The region of the source frame that is kept. *)
Definition kept_region (size : Z * Z) (r : option rect) : rect :=
  match r with
  | None => Rect 0 0 (fst size) (snd size)
  | Some r => r
  end.

(** *** Segment processor *)

Record encoding : Type := Encoding {
  codec : string;
  audio_codec : string;
  enc_fps : Z;
  enc_threads : Z
}.

(** The media toolkit and the path library, as the program uses them. *)
Class MediaToolkit : Type := {
  Path : Type;
  Clip : Type;
  Video : Type;
  (** [dir / name] *)
  joinpath : Path -> string -> Path;
  (** [VideoFileClip(str(path))] *)
  video_file_clip : Path -> result Clip;
  (** [clip.subclip(start, end)] *)
  subclip : Clip -> number -> number -> result Clip;
  (** [clip.size] *)
  clip_size : Clip -> Z * Z;
  (** [clip.crop(x1=, y1=, x2=, y2=)] *)
  clip_crop : Clip -> rect -> result Clip;
  (** [clip.resize(newsize=)] *)
  clip_resize : Clip -> Z * Z -> result Clip;
  (** the encoder behind [clip.write_videofile] *)
  encode : Clip -> encoding -> result Video;
  (** [os.cpu_count()] *)
  cpu_count : option Z
}.

Section Processor.
Context {tk : MediaToolkit}.

(** What a run leaves behind: the files written, oldest first, and the
    number of clips opened and not closed. *)
Record world : Type := World {
  written : list (Path * Video);
  open_clips : nat
}.

(** A computation that may raise and that changes the world also when
    it raises. *)
Definition run (A : Type) : Type := world -> result A * world.

Definition ret {A : Type} (a : A) : run A := fun w => (Ok a, w).

Definition lift {A : Type} (c : result A) : run A := fun w => (c, w).

Definition seq_run {A B : Type} (c : run A) (k : A -> run B) : run B :=
  fun w =>
    match c w with
    | (Ok a, w') => k a w'
    | (Raise e, w') => (Raise e, w')
    end.

Notation "x <~ c ;; k" := (seq_run c (fun x => k))
  (at level 61, c at next level, right associativity).

Definition open_clip (p : Path) : run Clip :=
  fun w =>
    match video_file_clip p with
    | Ok c => (Ok c, World (written w) (S (open_clips w)))
    | Raise e => (Raise e, w)
    end.

(** [clip.close()] *)
Definition close_clip (c : Clip) : run unit :=
  fun w => (Ok tt, World (written w) (Nat.pred (open_clips w))).

Definition write_videofile (c : Clip) (out : Path) (enc : encoding)
  : run unit :=
  fun w =>
    match encode c enc with
    | Ok v => (Ok tt, World (written w ++ [(out, v)]) (open_clips w))
    | Raise e => (Raise e, w)
    end.

Definition crop_to_ratio (clip : Clip) (target_ratio : Z * Z)
  : result Clip :=
  r <- crop_rect (clip_size clip) target_ratio ;;
  match r with
  | None => Ok clip
  | Some r => clip_crop clip r
  end.

(** [os.cpu_count() or 4] *)
Definition thread_count : Z :=
  match cpu_count with
  | Some n => if n =? 0 then 4 else n
  | None => 4
  end.

(** [f"{prefix}_part{i}.mp4"] *)
Definition part_name (prefix : string) (i : nat) : string :=
  (prefix ++ "_part" ++ str_of_nat i ++ ".mp4")%string.

Section Loop.
Variables (base : Clip) (aspect resolution : Z * Z) (fps : Z)
          (output_dir : Path) (prefix : string).

(** The body of the loop up to the encoder. *)
Definition prepare (seg : segment) : result Clip :=
  sub <- subclip base (fst seg) (snd seg) ;;
  cropped <- crop_to_ratio sub aspect ;;
  clip_resize cropped resolution.

(** [for i, (start, end) in enumerate(segments, start=i)] *)
Fixpoint segments_loop (i : nat) (segments : list segment)
         (outputs : list Path) : run (list Path) :=
  match segments with
  | [] => ret outputs
  | seg :: rest =>
      resized <~ lift (prepare seg) ;;
      let out := joinpath output_dir (part_name prefix i) in
      _ <~ write_videofile resized out
             (Encoding "libx264" "aac" fps thread_count) ;;
      segments_loop (S i) rest (outputs ++ [out])
  end.
End Loop.

Definition process_segments (video_path : Path) (segments : list segment)
           (aspect resolution : Z * Z) (fps : Z) (output_dir : Path)
           (prefix : string) : run (list Path) :=
  base <~ open_clip video_path ;;
  outputs <~ segments_loop base aspect resolution fps output_dir prefix
               1 segments [] ;;
  _ <~ close_clip base ;;
  ret outputs.
End Processor.

End YtShorts.

(** ** What the specification says, in its own words *)

Module Spec.
Import PyStr PyNum YtShorts.

(** A non-empty run of decimal digits. *)
Definition digits (s : string) : Prop :=
  all_digits s = true /\ s <> EmptyString.

Definition one_or_two (s : string) : Prop :=
  digits s /\ (String.length s <= 2)%nat.

(** [t] is a plain number: the digits [d], then maybe a point and the
    digits [f]. *)
Definition plain_number (t d : string) (f : option string) : Prop :=
  digits d /\
  match f with
  | None => t = d
  | Some f => digits f /\ t = (d ++ "." ++ f)%string
  end.

(** [t] is [H:MM] or [H:MM:SS]. *)
Definition clock_time (t g1 g2 : string) (g3 : option string) : Prop :=
  digits g1 /\ one_or_two g2 /\
  match g3 with
  | None => t = (g1 ++ ":" ++ g2)%string
  | Some g3 => one_or_two g3 /\ t = (g1 ++ ":" ++ g2 ++ ":" ++ g3)%string
  end.

(** [t] is [WxH]. *)
Definition resolution_text (t g1 g2 : string) : Prop :=
  digits g1 /\ digits g2 /\ t = (g1 ++ "x" ++ g2)%string.

(** [s] is [t], or [t] and one line feed. *)
Definition with_line_feed (t s : string) : Prop :=
  s = t \/ s = (t ++ String LF EmptyString)%string.

Definition plain_value (d : string) (f : option string) : float :=
  match f with
  | None => float_of_decimal (int_of_digits d) 0
  | Some f => float_of_decimal (int_of_digits (d ++ f)%string) (String.length f)
  end.

Definition clock_value (g1 g2 : string) (g3 : option string) : Z :=
  int_of_digits g1 * 3600 + int_of_digits g2 * 60
  + match g3 with Some g => int_of_digits g | None => 0 end.

Fixpoint all_zeros (s : string) : bool :=
  match s with
  | EmptyString => true
  | String c r => Ascii.eqb c "0" && all_zeros r
  end.

(** The range a part denotes before the duration is looked at: split,
    parse both halves, validate. *)
Definition range_of_part (part : string) : result segment :=
  '(a, b) <- split_part part ;;
  start <- parse_time a ;;
  end_ <- parse_time b ;;
  if py_lt start (PInt 0) || py_le end_ start then Raise (InvalidSegment part)
  else Ok (start, end_).

(** Drop the ranges that start at or after [d], clamp the others. *)
Definition clamp_all (d : number) (ranges : list segment) : list segment :=
  map (fun r => (fst r, py_min (snd r) d))
      (filter (fun r => py_lt (fst r) d) ranges).

Definition well_formed (d : number) (seg : segment) : Prop :=
  py_le (PInt 0) (fst seg) = true /\
  py_lt (fst seg) (snd seg) = true /\
  py_le (snd seg) d = true.

(** [==] between a list of segments and a list of pairs of integers. *)
Fixpoint same_segments (l : list segment) (r : list (Z * Z)) : bool :=
  match l, r with
  | [], [] => true
  | (s, e) :: l', (a, b) :: r' =>
      py_eq s (PInt a) && py_eq e (PInt b) && same_segments l' r'
  | _, _ => false
  end.

(** The mathematical floor of a finite number. *)
Definition floor (x : float) : option Z :=
  match float_value x with
  | Some (Fin q) => Some (Qfloor q)
  | _ => None
  end.

(** [width : height = trw : trh], exactly. *)
Definition has_ratio (r : rect) (trw trh : Z) : Prop :=
  (x2 r - x1 r) * trh = trw * (y2 r - y1 r).

(** [|w/h - trw/trh| >= 1e-6] on exact rationals. *)
Definition ratios_apart (w h trw trh : Z) : Prop :=
  (1 # 1000000 <= Qabs ((w # Z.to_pos h) - (trw # Z.to_pos trh)))%Q.

(** The names of [n] artifacts, numbered from [i]. *)
Definition names_from {tk : MediaToolkit} (output_dir : Path) (prefix : string)
           (i n : nat) : list Path :=
  map (fun k => joinpath output_dir
                  (prefix ++ "_part" ++ str_of_nat k ++ ".mp4")%string)
      (List.seq i n).

(** The names of the artifacts of [n] segments. *)
Definition artifact_names {tk : MediaToolkit} (output_dir : Path)
           (prefix : string) (n : nat) : list Path :=
  names_from output_dir prefix 1 n.

(** What one segment is encoded to, when nothing fails. *)
Definition render {tk : MediaToolkit} (base : Clip) (aspect resolution : Z * Z)
           (fps : Z) (seg : segment) : result Video :=
  resized <- prepare base aspect resolution seg ;;
  encode resized (Encoding "libx264" "aac" fps thread_count).

(** The time parser as the specification words it: a plain number, else
    a clock time, else a failure that carries the token. *)
Definition time_parser_claim (s : string) : Prop :=
  (forall d f, plain_number s d f ->
     parse_time s = Ok (PFloat (plain_value d f))) /\
  (forall g1 g2 g3, clock_time s g1 g2 g3 ->
     parse_time s = Ok (PInt (clock_value g1 g2 g3))) /\
  ((forall d f, ~ plain_number s d f) ->
   (forall g1 g2 g3, ~ clock_time s g1 g2 g3) ->
   parse_time s = Raise (InvalidTimeFormat s)).

(** The ratio parser as the specification words it: what it returns has
    two components above zero. *)
Definition ratio_claim (s : string) : Prop :=
  forall w h, ratio_from_string s = Ok (w, h) -> 0 < w /\ 0 < h.

(** The resolution resolver as the specification words it, for a text that
    is present: the literal pair when the text is [WxH] with [W] and [H]
    above zero, [InvalidResolution] otherwise. *)
Definition resolution_claim (s : string) (aspect : Z * Z) : Prop :=
  (forall g1 g2,
     resolution_text s g1 g2 -> 0 < int_of_digits g1 -> 0 < int_of_digits g2 ->
     resolution_from_arg (Some s) aspect
     = Ok (int_of_digits g1, int_of_digits g2)) /\
  ((forall g1 g2, resolution_text s g1 g2 ->
                  ~ (0 < int_of_digits g1 /\ 0 < int_of_digits g2)) ->
   resolution_from_arg (Some s) aspect = Raise InvalidResolution).

(** The crop geometry as the specification words it: away from the target
    ratio, the region that is kept has the target ratio exactly. *)
Definition exact_ratio_claim (w h trw trh : Z) : Prop :=
  0 < w -> 0 < h -> 0 < trw -> 0 < trh -> ratios_apart w h trw trh ->
  forall r, crop_rect (w, h) (trw, trh) = Ok r ->
            has_ratio (kept_region (w, h) r) trw trh.

(** [s] ends in a line feed. *)
Fixpoint ends_in_line_feed (s : string) : bool :=
  match s with
  | EmptyString => false
  | String c EmptyString => Ascii.eqb c LF
  | String _ r => ends_in_line_feed r
  end.

(** A run of digits that [int] converts: it is within the limit. *)
Definition within_limit (s : string) : Prop :=
  Z.of_nat (String.length s) <= int_max_str_digits.

(** The test [abs(current - target) < 1e-6]. *)
Definition near (current target : float) : bool :=
  py_lt (PFloat (float_abs (float_sub current target))) (PFloat float_1e_6).

(** The test [current > target]. *)
Definition wider (current target : float) : bool :=
  py_gt (PFloat current) (PFloat target).

End Spec.

(** ** A toolkit to run the processor on

    Paths are texts joined by a slash, a clip is the range it shows and its
    frame size, a video is the encoded clip; nothing fails except a crop
    outside the frame. *)

Module Demo.
Import PyStr PyNum YtShorts.

Record clip : Type := DemoClip {
  shown : number * number;
  frame : Z * Z
}.

Definition demo_crop (c : clip) (r : rect) : result clip :=
  if (0 <=? x1 r) && (x1 r <=? x2 r) && (x2 r <=? fst (frame c))
     && (0 <=? y1 r) && (y1 r <=? y2 r) && (y2 r <=? snd (frame c))
  then Ok (DemoClip (shown c) (x2 r - x1 r, y2 r - y1 r))
  else Raise (ToolkitError "crop").

#[export] Instance toolkit : MediaToolkit := {|
  Path := string;
  Clip := clip;
  Video := clip * encoding;
  joinpath := fun dir name => (dir ++ "/" ++ name)%string;
  video_file_clip := fun _ => Ok (DemoClip (PInt 0, PInt 50) (1920, 1080));
  subclip := fun c s e => Ok (DemoClip (s, e) (frame c));
  clip_size := frame;
  clip_crop := demo_crop;
  clip_resize := fun c size => Ok (DemoClip (shown c) size);
  encode := fun c enc => Ok (c, enc);
  cpu_count := Some 8
|}.

Definition hundred : number := PFloat (float_of_decimal 100 0).

End Demo.

(** ** The prefix of the artifacts *)

Module Prefix.
Import PyStr Spec.

(** [re.sub(r"\s+", "_", s)]: every maximal run of white space becomes one
    underscore.  [in_run] says that the character before was white space. *)
Fixpoint sub_spaces_from (in_run : bool) (s : string) : string :=
  match s with
  | EmptyString => EmptyString
  | String c r =>
      if is_space c
      then if in_run then sub_spaces_from true r
           else String "_" (sub_spaces_from true r)
      else String c (sub_spaces_from false r)
  end.

Definition sub_spaces (s : string) : string := sub_spaces_from false s.

(** [s[:n]] *)
Fixpoint take (n : nat) (s : string) : string :=
  match n, s with
  | S n', String c r => String c (take n' r)
  | _, _ => EmptyString
  end.

(** [infer_prefix(path)], as a function of [path.stem] *)
Definition infer_prefix (stem : string) : string := take 60 (sub_spaces stem).

Fixpoint all_space (s : string) : bool :=
  match s with
  | EmptyString => true
  | String c r => is_space c && all_space r
  end.

Definition head_is_space (s : string) : bool :=
  match s with
  | String c _ => is_space c
  | EmptyString => false
  end.

(** A text of commas and white space only. *)
Fixpoint blank_spec (s : string) : bool :=
  match s with
  | EmptyString => true
  | String c r => (is_space c || Ascii.eqb c ",") && blank_spec r
  end.

(** [t] is [W], white space, a colon, white space, [H]. *)
Definition ratio_text (t g1 sp1 sp2 g2 : string) : Prop :=
  digits g1 /\ digits g2 /\ all_space sp1 = true /\ all_space sp2 = true /\
  t = (g1 ++ sp1 ++ ":" ++ sp2 ++ g2)%string.

(** A toolkit as that of [Demo], but whose [subclip] refuses a range that
    ends after the clip. *)
Definition strict_subclip (c : Demo.clip) (s e : PyNum.number)
  : result Demo.clip :=
  if PyNum.py_le e (snd (Demo.shown c))
  then Ok (Demo.DemoClip (s, e) (Demo.frame c))
  else Raise (ToolkitError "subclip").

Definition strict_toolkit : YtShorts.MediaToolkit := {|
  YtShorts.Path := string;
  YtShorts.Clip := Demo.clip;
  YtShorts.Video := Demo.clip * YtShorts.encoding;
  YtShorts.joinpath := fun dir name => (dir ++ "/" ++ name)%string;
  YtShorts.video_file_clip :=
    fun _ => Ok (Demo.DemoClip (PyNum.PInt 0, PyNum.PInt 50) (1920, 1080));
  YtShorts.subclip := strict_subclip;
  YtShorts.clip_size := Demo.frame;
  YtShorts.clip_crop := Demo.demo_crop;
  YtShorts.clip_resize := fun c size => Ok (Demo.DemoClip (Demo.shown c) size);
  YtShorts.encode := fun c enc => Ok (c, enc);
  YtShorts.cpu_count := None
|}.

End Prefix.


(** ** The front ends *)

Module FrontEnds.
Import PyStr PyNum YtShorts Prefix.

(** What the front ends use besides the media toolkit: the path library,
    the file system, the downloader, and the builtin [int]. *)
Class Host {tk : MediaToolkit} : Type := {
  (** [Path(text)] *)
  path_of : string -> Path;
  (** [path.stem] *)
  path_stem : Path -> string;
  (** [path.name] *)
  path_name : Path -> string;
  (** [path.with_suffix(".mp4")] *)
  with_suffix_mp4 : Path -> Path;
  (** [path.exists()], asked after the download *)
  path_exists : Path -> bool;
  (** [path.mkdir(...)] *)
  mkdir : Path -> result unit;
  (** the downloader: [extract_info(url, download=True)] into a directory,
      then [prepare_filename] *)
  ydl_fetch : string -> Path -> result Path;
  (** [clip.duration] *)
  clip_duration : Clip -> number;
  (** [os.rename(src, dst)] *)
  os_rename : Path -> Path -> result unit;
  (** [int(text)] *)
  py_int : string -> result Z
}.

(** What is printed, or flashed on the page. *)
Inductive message {tk : MediaToolkit} : Type :=
| ShowDuration (d : number)
| ShowHint
| NoValidSegments
| Created
| ShowPath (p : Path)
| NeedUrl
| NeedSegments.

Section Pipeline.
Context {tk : MediaToolkit} {host : Host}.

(** What a front end leaves behind: the world of the processor, the
    addresses fetched, the directories made, the files moved, the temporary
    directories removed and the messages shown, oldest first. *)
Record session : Type := Session {
  media : world;
  fetched : list string;
  made : list Path;
  moved : list (Path * Path);
  removed : list Path;
  shown : list message
}.

Definition act (A : Type) : Type := session -> result A * session.

Definition done {A : Type} (a : A) : act A := fun s => (Ok a, s).

Definition check {A : Type} (c : result A) : act A := fun s => (c, s).

Definition then_act {A B : Type} (c : act A) (k : A -> act B) : act B :=
  fun s =>
    match c s with
    | (Ok a, s') => k a s'
    | (Raise e, s') => (Raise e, s')
    end.

Notation "x <~~ c ;; k" := (then_act c (fun x => k))
  (at level 61, c at next level, right associativity).

(** A computation of the processor, inside a session. *)
Definition on_media {A : Type} (c : run A) : act A :=
  fun s =>
    let (r, w) := c (media s) in
    (r, Session w (fetched s) (made s) (moved s) (removed s) (shown s)).

Definition say (m : message) : act unit :=
  fun s =>
    (Ok tt, Session (media s) (fetched s) (made s) (moved s) (removed s)
                    (shown s ++ [m])).

Definition make_dir (p : Path) : act unit :=
  fun s =>
    match mkdir p with
    | Ok _ => (Ok tt, Session (media s) (fetched s) (made s ++ [p]) (moved s)
                              (removed s) (shown s))
    | Raise e => (Raise e, s)
    end.

(** [download_video(url, output_dir)] *)
Definition download_video (url : string) (output_dir : Path) : act Path :=
  fun s =>
    match ydl_fetch url output_dir with
    | Ok p =>
        let s' := Session (media s) (fetched s ++ [url]) (made s) (moved s)
                          (removed s) (shown s) in
        if path_exists p then (Ok p, s')
        else
          let mp4 := with_suffix_mp4 p in
          if path_exists mp4 then (Ok mp4, s') else (Ok p, s')
    | Raise e => (Raise e, s)
    end.

(** [clip = VideoFileClip(str(video_path)); duration = clip.duration;
    clip.close()] *)
Definition probe_duration (video_path : Path) : act number :=
  on_media (seq_run (open_clip video_path)
              (fun clip => seq_run (close_clip clip)
                             (fun _ => ret (clip_duration clip)))).

(** [try: os.rename(src, dst) except Exception: pass] *)
Definition rename_quietly (src dst : Path) : act unit :=
  fun s =>
    match os_rename src dst with
    | Ok _ => (Ok tt, Session (media s) (fetched s) (made s)
                              (moved s ++ [(src, dst)]) (removed s) (shown s))
    | Raise _ => (Ok tt, s)
    end.

(** [with tempfile.TemporaryDirectory() as tmp: body]: the directory is
    removed when the body is left, by its end or by an exception. *)
Definition with_temporary {A : Type} (tmp : Path) (body : act A) : act A :=
  fun s =>
    let (r, s') := body s in
    (r, Session (media s') (fetched s') (made s') (moved s')
                (removed s' ++ [tmp]) (shown s')).

Fixpoint say_paths (l : list Path) : act unit :=
  match l with
  | [] => done tt
  | p :: rest => _ <~~ say (ShowPath p) ;; say_paths rest
  end.

(** *** The command line *)

Record arguments : Type := Arguments {
  arg_url : string;
  arg_segments : option string;
  arg_aspect : string;
  arg_resolution : option string;
  arg_fps : Z;
  arg_output : string;
  arg_keep : bool
}.

(** How [main] ends when nothing is raised: [sys.exit(1)], or its last
    line. *)
Inductive ending : Type :=
| Exit (code : Z)
| Finished.

(** [not text] for an optional text *)
Definition missing (text : option string) : bool :=
  match text with
  | Some (String _ _) => false
  | _ => true
  end.

Definition text_of (text : option string) : string :=
  match text with Some t => t | None => EmptyString end.

(** [main(argv)], from the parsed arguments on; [typed] is what [input]
    returns and [tmp] the temporary directory. *)
Definition main (args : arguments) (typed : string) (tmp : Path)
  : act ending :=
  aspect <~~ check (ratio_from_string (arg_aspect args)) ;;
  let output_dir := path_of (arg_output args) in
  _ <~~ make_dir output_dir ;;
  with_temporary tmp (
    video_path <~~ download_video (arg_url args) tmp ;;
    duration <~~ probe_duration video_path ;;
    spec <~~ (if missing (arg_segments args)
              then _ <~~ say (ShowDuration duration) ;;
                   _ <~~ say ShowHint ;;
                   done (strip typed)
              else done (strip (text_of (arg_segments args)))) ;;
    segments <~~ check (parse_segments spec duration) ;;
    match segments with
    | [] => _ <~~ say NoValidSegments ;; done (Exit 1)
    | _ :: _ =>
        resolution <~~ check (resolution_from_arg (arg_resolution args)
                                aspect) ;;
        outputs <~~ on_media
                      (process_segments video_path segments aspect resolution
                         (arg_fps args) output_dir
                         (infer_prefix (path_stem video_path))) ;;
        _ <~~ (if arg_keep args
               then rename_quietly video_path
                      (joinpath output_dir
                         (infer_prefix (path_stem video_path)
                          ++ "_source.mp4")%string)
               else done tt) ;;
        _ <~~ say Created ;;
        _ <~~ say_paths outputs ;;
        done Finished
    end).

(** *** The web form *)

(** What [process] answers: a redirection to the form, or the page of the
    results with the names of the files. *)
Inductive response : Type :=
| Redirect
| Page (files : list string).

(** [request.form.get(key, default)] *)
Definition form_get (form : string -> option string) (key default : string)
  : string :=
  match form key with
  | Some v => v
  | None => default
  end.

(** [text or None] *)
Definition or_none (text : string) : option string :=
  match text with
  | EmptyString => None
  | _ => Some text
  end.

(** [process()], on the fields of the form *)
Definition process (form : string -> option string) : act response :=
  let url := strip (form_get form "url" "") in
  let segments_spec := strip (form_get form "segments" "") in
  let aspect_str := strip (form_get form "aspect" "9:16") in
  let resolution_str := or_none (strip (form_get form "resolution" "")) in
  fps <~~ check (py_int (form_get form "fps" "30")) ;;
  if is_empty url then _ <~~ say NeedUrl ;; done Redirect
  else
    let output_dir := path_of "output" in
    _ <~~ make_dir output_dir ;;
    aspect <~~ check (ratio_from_string aspect_str) ;;
    let tmpdir := path_of ".tmp" in
    _ <~~ make_dir tmpdir ;;
    video_path <~~ download_video url tmpdir ;;
    duration <~~ probe_duration video_path ;;
    if is_empty segments_spec then _ <~~ say NeedSegments ;; done Redirect
    else
      segments <~~ check (parse_segments segments_spec duration) ;;
      resolution <~~ check (resolution_from_arg resolution_str aspect) ;;
      let prefix := infer_prefix (path_stem video_path) in
      outputs <~~ on_media
                    (process_segments video_path segments aspect resolution
                       fps output_dir prefix) ;;
      done (Page (map path_name outputs)).

End Pipeline.

(** The file [download_video] settles on: the prepared name if it exists,
    else its [.mp4] sibling if that exists, else the prepared name. *)
Definition chosen_file {tk : MediaToolkit} {host : Host} (p : Path) : Path :=
  if path_exists p then p
  else if path_exists (with_suffix_mp4 p) then with_suffix_mp4 p else p.

(** The session once the output directory is made, the source fetched and
    its duration read. *)
Definition fetched_session {tk : MediaToolkit} {host : Host}
           (s : session) (dirs : list Path) (url : string) : session :=
  Session (media s) (fetched s ++ [url]) (made s ++ dirs) (moved s)
          (removed s) (shown s).

Definition say_in {tk : MediaToolkit} {host : Host}
           (s : session) (ms : list message) : session :=
  Session (media s) (fetched s) (made s) (moved s) (removed s)
          (shown s ++ ms).

Definition remove_in {tk : MediaToolkit} {host : Host}
           (s : session) (tmp : Path) : session :=
  Session (media s) (fetched s) (made s) (moved s) (removed s ++ [tmp])
          (shown s).

(** The spec [main] parses, and what it prints before: the argument, or
    what is typed at the prompt after the duration and the hint. *)
Definition spec_of (args : arguments) (typed : string) : string :=
  if missing (arg_segments args) then strip typed
  else strip (text_of (arg_segments args)).

Definition prompts {tk : MediaToolkit} (args : arguments) (d : number)
  : list message :=
  if missing (arg_segments args) then [ShowDuration d; ShowHint] else [].


(** *** A host to run the front ends on

    Paths are texts, as in the toolkit of [Demo].  The downloader prepares
    a [.webm] name in the directory it is given; only files ending in
    [.mp4] exist.  [int] reads runs of digits. *)

(** What follows the last slash. *)
Fixpoint base_name (s : string) : string :=
  match s with
  | EmptyString => EmptyString
  | String c r => if contains "/" s then base_name r else s
  end.

(** What precedes the last full stop. *)
Fixpoint drop_suffix (s : string) : string :=
  match s with
  | EmptyString => EmptyString
  | String c r =>
      if contains "." r then String c (drop_suffix r)
      else if Ascii.eqb c "." then EmptyString else s
  end.

Definition demo_fetch (url : string) (dir : string) : result string :=
  if is_empty url then Raise (ToolkitError "download")
  else Ok (dir ++ "/My  first clip.webm")%string.

Definition demo_int (text : string) : result Z :=
  if all_digits text && negb (is_empty text) then int_of_str text
  else Raise (ToolkitError "int").

Definition demo_host : @Host Demo.toolkit :=
  @Build_Host Demo.toolkit
    (fun text : string => text)
    (fun p : string => drop_suffix (base_name p))
    base_name
    (fun p : string => (drop_suffix p ++ ".mp4")%string)
    (fun p : string => String.eqb p (drop_suffix p ++ ".mp4")%string)
    (fun _ => Ok tt)
    demo_fetch
    (fun c : Demo.clip => snd (Demo.shown c))
    (fun _ _ => Ok tt)
    demo_int.

Definition fresh : @session Demo.toolkit :=
  @Session Demo.toolkit (World [] 0) [] [] [] [] [].

(** A form, from its fields. *)
Fixpoint form_of (fields : list (string * string)) (key : string)
  : option string :=
  match fields with
  | [] => None
  | (k, v) :: rest => if String.eqb k key then Some v else form_of rest key
  end.

End FrontEnds.

(** * Facts about texts *)

Module PyStrFacts.
Import PyStr.

Lemma append_nil_r (s : string) : (s ++ "")%string = s.
Proof. induction s; simpl; congruence. Qed.

Lemma append_assoc (a b c : string) :
  ((a ++ b) ++ c)%string = (a ++ (b ++ c))%string.
Proof. induction a; simpl; congruence. Qed.

Lemma is_empty_false (s : string) : is_empty s = false <-> s <> EmptyString.
Proof. destruct s; simpl; split; congruence. Qed.

Lemma digit_not_space (c : ascii) : is_digit c = true -> is_space c = false.
Proof.
  unfold is_digit, is_space. intros H.
  apply andb_prop in H as [H1 H2].
  apply N.leb_le in H1. apply N.leb_le in H2.
  repeat match goal with
         | |- context [(?a <=? ?b)%N] => destruct (N.leb_spec a b)
         | |- context [(?a =? ?b)%N] => destruct (N.eqb_spec a b)
         end; simpl; try reflexivity; lia.
Qed.

Lemma digit_value_range (c : ascii) :
  is_digit c = true -> 0 <= digit_value c <= 9.
Proof.
  unfold is_digit, digit_value. intros H.
  apply andb_prop in H as [H1 H2].
  apply N.leb_le in H1. apply N.leb_le in H2. lia.
Qed.

Lemma digit_value_zero (c : ascii) :
  is_digit c = true -> (digit_value c = 0 <-> c = "0"%char).
Proof.
  intros H. split.
  - unfold digit_value, code. intros E.
    assert (N_of_ascii c = 48%N) as E' by lia.
    rewrite <- (ascii_N_embedding c), E'. reflexivity.
  - intros ->. reflexivity.
Qed.

Lemma all_digits_app (a b : string) :
  all_digits (a ++ b) = all_digits a && all_digits b.
Proof.
  induction a as [|c a IH]; simpl; [reflexivity|].
  rewrite IH. apply andb_assoc.
Qed.

(** What [span_digits] returns: a split of the text, digits first, that
    cannot be extended. *)
Lemma span_digits_sound (s d r : string) :
  span_digits s = (d, r) ->
  s = (d ++ r)%string /\ all_digits d = true /\ head_is_digit r = false.
Proof.
  revert d r. induction s as [|c s IH]; simpl; intros d r H.
  - inversion H; subst. auto.
  - destruct (is_digit c) eqn:Ec.
    + destruct (span_digits s) as [d' t] eqn:Es.
      inversion H; subst. destruct (IH d' r eq_refl) as (-> & Hd & Hr).
      simpl. rewrite Ec, Hd. auto.
    + inversion H; subst. simpl. auto.
Qed.

Lemma span_digits_complete (d r : string) :
  all_digits d = true -> head_is_digit r = false ->
  span_digits (d ++ r) = (d, r).
Proof.
  induction d as [|c d IH]; simpl; intros Hd Hr.
  - destruct r as [|a r]; [reflexivity|]. simpl in *. now rewrite Hr.
  - apply andb_prop in Hd as [Hc Hd]. rewrite Hc, (IH Hd Hr). reflexivity.
Qed.

Lemma span_digits_upto_sound (n : nat) (s d r : string) :
  span_digits_upto n s = (d, r) ->
  s = (d ++ r)%string /\ all_digits d = true /\ (String.length d <= n)%nat
  /\ (head_is_digit r = true -> String.length d = n).
Proof.
  revert s d r. induction n as [|n IH]; intros s d r H.
  - destruct s; simpl in H; inversion H; subst; simpl; auto.
  - destruct s as [|c s]; simpl in H.
    + inversion H; subst; simpl. repeat split; auto; try lia; discriminate.
    + destruct (is_digit c) eqn:Ec.
      * destruct (span_digits_upto n s) as [d' t] eqn:Es.
        inversion H; subst.
        destruct (IH s d' r Es) as (-> & Hd & Hl & Hx).
        simpl. rewrite Ec, Hd. repeat split; auto; try lia;
          try (intros Hr; now rewrite (Hx Hr)).
      * inversion H; subst. simpl. repeat split; auto; try lia;
          try (rewrite Ec; discriminate).
Qed.

Lemma span_digits_upto_complete (n : nat) (d r : string) :
  all_digits d = true -> (String.length d <= n)%nat ->
  head_is_digit r = false ->
  span_digits_upto n (d ++ r) = (d, r).
Proof.
  revert d. induction n as [|n IH]; intros d Hd Hl Hr.
  - destruct d; simpl in Hl; [|lia]. simpl. now destruct r.
  - destruct d as [|c d]; simpl in *.
    + destruct r as [|a r]; [reflexivity|]. simpl in Hr. now rewrite Hr.
    + apply andb_prop in Hd as [Hc Hd]. rewrite Hc.
      rewrite (IH d Hd ltac:(lia) Hr). reflexivity.
Qed.

Lemma at_dollar_cases (s : string) :
  at_dollar s = true <-> s = EmptyString \/ s = String LF EmptyString.
Proof.
  destruct s as [|c [|c' s]]; simpl; split; auto.
  - intros H. apply Ascii.eqb_eq in H. subst. auto.
  - intros [H|H]; [discriminate|]. inversion H. apply Ascii.eqb_refl.
  - discriminate.
  - intros [H|H]; discriminate.
Qed.

(** *** [in], [count] and [split] *)

Lemma contains_app (c : ascii) (a b : string) :
  contains c (a ++ b) = contains c a || contains c b.
Proof.
  induction a as [|x a IH]; simpl; [reflexivity|].
  rewrite IH. apply orb_assoc.
Qed.

Lemma contains_count (c : ascii) (s : string) :
  contains c s = false <-> count c s = O.
Proof.
  induction s as [|a s IH]; simpl; [tauto|].
  destruct (Ascii.eqb a c); simpl; [split; discriminate | exact IH].
Qed.

Lemma split_not_nil (c : ascii) (s : string) : split c s <> [].
Proof.
  destruct s as [|a s]; simpl; [discriminate|].
  destruct (Ascii.eqb a c); [discriminate|].
  destruct (split c s); discriminate.
Qed.

Lemma split_length (c : ascii) (s : string) :
  List.length (split c s) = S (count c s).
Proof.
  induction s as [|a s IH]; simpl; [reflexivity|].
  destruct (Ascii.eqb a c); simpl; [now rewrite IH|].
  destruct (split c s) eqn:E; simpl in *; [discriminate | exact IH].
Qed.

Lemma join_split (c : ascii) (s : string) : join c (split c s) = s.
Proof.
  induction s as [|a s IH]; simpl; [reflexivity|].
  destruct (Ascii.eqb_spec a c) as [->|Hac].
  - pose proof (split_not_nil c s) as Hn.
    destruct (split c s) as [|p l]; [congruence|].
    change (join c (EmptyString :: p :: l))
      with (String c (join c (p :: l))). now rewrite IH.
  - pose proof (split_not_nil c s) as Hn.
    destruct (split c s) as [|p l]; [congruence|].
    destruct l as [|q l]; simpl in *; now rewrite <- IH.
Qed.

Lemma split_pieces (c : ascii) (s : string) :
  Forall (fun p => contains c p = false) (split c s).
Proof.
  induction s as [|a s IH]; simpl.
  - constructor; [reflexivity | constructor].
  - destruct (Ascii.eqb a c) eqn:E.
    + constructor; [reflexivity | exact IH].
    + destruct (split c s) as [|p l].
      * constructor; [simpl; now rewrite E | constructor].
      * inversion IH; subst. constructor; [simpl; now rewrite E | assumption].
Qed.

(** A text without the separator is its only piece. *)
Lemma split_without (c : ascii) (s : string) :
  contains c s = false -> split c s = [s].
Proof.
  intros H. apply contains_count in H.
  pose proof (split_length c s) as L. rewrite H in L.
  pose proof (join_split c s) as J.
  destruct (split c s) as [|p [|q l]]; simpl in L; try discriminate.
  simpl in J. now subst.
Qed.

(** Two pieces are the text before and the text after the only
    separator. *)
Lemma split_pair (c : ascii) (s a b : string) :
  split c s = [a; b] ->
  s = (a ++ String c b)%string /\ contains c a = false /\ contains c b = false.
Proof.
  intros H. pose proof (join_split c s) as J.
  pose proof (split_pieces c s) as P. rewrite H in J, P.
  simpl in J.
  pose proof (Forall_inv P) as Pa.
  pose proof (Forall_inv (Forall_inv_tail P)) as Pb.
  simpl in Pa, Pb. auto.
Qed.

Lemma split_once (c : ascii) (s : string) :
  count c s = 1%nat -> exists a b, split c s = [a; b].
Proof.
  intros H. pose proof (split_length c s) as L. rewrite H in L.
  destruct (split c s) as [|a [|b [|x l]]]; simpl in L; try discriminate.
  now exists a, b.
Qed.

(** *** [strip] *)

Lemma no_space_app (a b : string) :
  no_space (a ++ b) = no_space a && no_space b.
Proof.
  induction a as [|c a IH]; simpl; [reflexivity|].
  rewrite IH. apply andb_assoc.
Qed.

Lemma all_digits_no_space (d : string) :
  all_digits d = true -> no_space d = true.
Proof.
  induction d as [|c d IH]; simpl; [reflexivity|]. intros H.
  apply andb_prop in H as [Hc Hd].
  now rewrite (digit_not_space c Hc), (IH Hd).
Qed.

Lemma lstrip_no_space (s : string) : no_space s = true -> lstrip s = s.
Proof.
  destruct s as [|c s]; simpl; [reflexivity|]. intros H.
  apply andb_prop in H as [Hc _]. apply negb_true_iff in Hc.
  now rewrite Hc.
Qed.

Lemma rstrip_no_space (s : string) : no_space s = true -> rstrip s = s.
Proof.
  induction s as [|c s IH]; simpl; [reflexivity|]. intros H.
  apply andb_prop in H as [Hc Hs]. apply negb_true_iff in Hc.
  rewrite (IH Hs), Hc. now rewrite andb_false_r.
Qed.

Lemma rstrip_line_feed (s : string) :
  no_space s = true -> rstrip (s ++ String LF EmptyString) = s.
Proof.
  induction s as [|c s IH]; simpl; [reflexivity|]. intros H.
  apply andb_prop in H as [Hc Hs]. apply negb_true_iff in Hc.
  rewrite (IH Hs), Hc. now rewrite andb_false_r.
Qed.

(** [strip] undoes the line feed that [$] lets through. *)
Lemma strip_with_line_feed (t s : string) :
  no_space t = true ->
  s = t \/ s = (t ++ String LF EmptyString)%string ->
  strip s = t.
Proof.
  intros Ht [->| ->]; unfold strip.
  - now rewrite (lstrip_no_space t Ht), (rstrip_no_space t Ht).
  - destruct t as [|c t]; [reflexivity|].
    assert (lstrip (String c t ++ String LF "") = (String c t ++ String LF "")%string)
      as -> by (simpl in *; apply andb_prop in Ht as [Hc _];
                apply negb_true_iff in Hc; now rewrite Hc).
    now apply rstrip_line_feed.
Qed.

(** *** [int] on digits *)

Lemma int_from_lower (s : string) (acc : Z) :
  all_digits s = true -> 0 <= acc -> acc <= int_from acc s.
Proof.
  revert acc.
  induction s as [|c s IH]; intros acc H Hacc;
    cbn [int_from all_digits] in *; [lia|].
  apply andb_prop in H as [Hc Hs].
  pose proof (digit_value_range c Hc).
  assert (0 <= 10 * acc + digit_value c) as Hn by lia.
  specialize (IH (10 * acc + digit_value c) Hs Hn). lia.
Qed.

Lemma int_of_digits_nonneg (s : string) :
  all_digits s = true -> 0 <= int_of_digits s.
Proof. intros H. now apply (int_from_lower s 0 H). Qed.

End PyStrFacts.

(** * Facts about numbers *)

Module PyNumFacts.
Import PyNum.

(** *** Rounding keeps the sign *)

Section Rounding.
Variables p e : Z.

Lemma iter_pos_invariant {A : Type} (f : A -> A) (P : A -> Prop) :
  (forall x, P x -> P (f x)) ->
  forall n x, P x -> P (iter_pos f n x).
Proof.
  intros Hf. induction n as [n IH|n IH|]; intros x Hx; simpl; auto.
Qed.

Lemma shr_1_nonneg (mrs : shr_record) :
  0 <= shr_m mrs -> 0 <= shr_m (shr_1 mrs).
Proof.
  destruct mrs as [m r s]. destruct m as [|[q|q|]|q]; simpl; lia.
Qed.

Lemma shr_nonneg (mrs : shr_record) (ex n : Z) :
  0 <= shr_m mrs -> 0 <= shr_m (fst (shr mrs ex n)).
Proof.
  intros H. destruct n as [|n|n]; simpl; auto.
  apply (iter_pos_invariant shr_1 (fun x => 0 <= shr_m x)); auto.
  apply shr_1_nonneg.
Qed.

Lemma shr_fexp_nonneg (m ex : Z) (l : location) :
  0 <= m -> 0 <= shr_m (fst (shr_fexp p e m ex l)).
Proof.
  intros H. unfold shr_fexp. apply shr_nonneg.
  destruct l as [|[]]; exact H.
Qed.

Lemma round_nearest_even_nonneg (m : Z) (l : location) :
  0 <= m -> 0 <= round_nearest_even m l.
Proof.
  intros H. destruct l as [|[]]; simpl; try lia.
  destruct (Z.even m); lia.
Qed.

(** Rounding a magnitude never gives a NaN and keeps the sign. *)
Lemma binary_round_aux_sign (sx : bool) (mx ex : Z) (lx : location) :
  0 <= mx ->
  match binary_round_aux p e sx mx ex lx with
  | S754_zero s | S754_infinity s | S754_finite s _ _ => s = sx
  | S754_nan => False
  end.
Proof.
  intros H. unfold binary_round_aux.
  pose proof (shr_fexp_nonneg mx ex lx H) as H1.
  destruct (shr_fexp p e mx ex lx) as [mrs' e'] eqn:E1. simpl in H1.
  pose proof (round_nearest_even_nonneg
                (shr_m mrs') (loc_of_shr_record mrs') H1) as H2.
  pose proof (shr_fexp_nonneg _ e' loc_Exact H2) as H3.
  destruct (shr_fexp p e (round_nearest_even _ _) e' loc_Exact)
    as [mrs'' e''] eqn:E2.
  simpl in H3. destruct (shr_m mrs'') as [|m|m]; try lia; auto.
  destruct (e'' <=? e - p); reflexivity.
Qed.

Lemma binary_round_aux_nonneg (mx ex : Z) (lx : location) :
  0 <= mx -> is_nonneg (binary_round_aux p e false mx ex lx) = true.
Proof.
  intros H. pose proof (binary_round_aux_sign false mx ex lx H) as S.
  destruct (binary_round_aux p e false mx ex lx); simpl; subst;
    try reflexivity. contradiction.
Qed.

Lemma SFmul_nonneg (x y : spec_float) :
  is_nonneg x = true -> is_nonneg y = true ->
  is_infinity x = false -> is_infinity y = false ->
  is_nonneg (SFmul p e x y) = true.
Proof.
  destruct x as [sx|sx| |sx mx ex], y as [sy|sy| |sy my ey];
    simpl; try discriminate; try reflexivity; intros Hx Hy _ _.
  apply negb_true_iff in Hx. apply negb_true_iff in Hy. subst. simpl.
  apply binary_round_aux_nonneg. lia.
Qed.

Lemma div_core_nonneg (m1 e1 m2 e2 : Z) :
  0 <= m1 -> 0 < m2 ->
  0 <= fst (fst (SFdiv_core_binary p e m1 e1 m2 e2)).
Proof.
  intros H1 H2. unfold SFdiv_core_binary.
  set (s := e1 - e2 - _).
  set (m' := match s with Z0 => m1 | Zpos _ => Z.shiftl m1 s | Zneg _ => 0 end).
  assert (0 <= m') as Hm.
  { subst m'. destruct s; try lia. now apply Z.shiftl_nonneg. }
  pose proof (Z.div_pos m' m2 Hm H2) as Hq. unfold Z.div in Hq.
  destruct (Z.div_eucl m' m2) as [q r]. simpl. exact Hq.
Qed.

Lemma SFdiv_nonneg (x y : spec_float) :
  is_nonneg x = true -> is_nonneg y = true ->
  is_infinity x = false -> is_zero y = false ->
  is_nonneg (SFdiv p e x y) = true.
Proof.
  destruct x as [sx|sx| |sx mx ex], y as [sy|sy| |sy my ey];
    simpl; try discriminate; try reflexivity; intros Hx Hy _ _;
    try (apply negb_true_iff in Hx); try (apply negb_true_iff in Hy);
    subst; simpl; try reflexivity.
  pose proof (div_core_nonneg (Zpos mx) ex (Zpos my) ey
                ltac:(lia) ltac:(lia)) as H.
  destruct (SFdiv_core_binary p e (Zpos mx) ex (Zpos my) ey) as [[mz ez] lz].
  simpl in H. now apply binary_round_aux_nonneg.
Qed.

Lemma binary_normalize_nonneg (z ez : Z) :
  0 <= z -> is_nonneg (binary_normalize p e z ez false) = true.
Proof.
  intros H. destruct z as [|m|m]; simpl; try reflexivity; try lia.
  unfold binary_round.
  destruct (shl_align m ez _) as [mz ez'].
  apply binary_round_aux_nonneg. lia.
Qed.
End Rounding.

(** *** Signs of the operations of the program *)

Lemma exact_of_Z_nonneg (z : Z) :
  0 <= z -> is_nonneg (exact_of_Z z) = true /\ is_infinity (exact_of_Z z) = false.
Proof. destruct z; simpl; intros; try lia; auto. Qed.

Lemma exact_of_Z_zero (z : Z) : 0 < z -> is_zero (exact_of_Z z) = false.
Proof. destruct z; simpl; intros; try lia; auto. Qed.

Lemma float_of_decimal_nonneg (n : Z) (k : nat) :
  0 <= n -> is_nonneg (float_of_decimal n k) = true.
Proof.
  intros H. unfold float_of_decimal.
  assert (0 < 10 ^ Z.of_nat k) as Hk by (apply Z.pow_pos_nonneg; lia).
  destruct (exact_of_Z_nonneg n H) as [Hn Hi].
  apply SFdiv_nonneg; auto.
  - apply exact_of_Z_nonneg. lia.
  - now apply exact_of_Z_zero.
Qed.

Lemma int_truediv_nonneg (a b : Z) (f : float) :
  0 <= a -> 0 < b -> int_truediv a b = Ok f ->
  is_nonneg f = true /\ is_infinity f = false.
Proof.
  intros Ha Hb. unfold int_truediv.
  destruct (Z.eqb_spec b 0) as [->|_]; [lia|].
  destruct (is_infinity (SFdiv prec emax (exact_of_Z a) (exact_of_Z b))) eqn:E;
    [discriminate|].
  intros [= <-]. split; [|exact E].
  destruct (exact_of_Z_nonneg a Ha) as [Hn Hi].
  apply SFdiv_nonneg; auto.
  - apply exact_of_Z_nonneg. lia.
  - now apply exact_of_Z_zero.
Qed.

Lemma float_of_int_nonneg (z : Z) (f : float) :
  0 <= z -> float_of_int z = Ok f ->
  is_nonneg f = true /\ is_infinity f = false.
Proof.
  intros Hz. unfold float_of_int.
  destruct (is_infinity (binary_normalize prec emax z 0 false)) eqn:E;
    [discriminate|].
  intros [= <-]. split; [|exact E]. now apply binary_normalize_nonneg.
Qed.

Lemma int_mul_float_nonneg (z : Z) (y f : float) :
  0 <= z -> is_nonneg y = true -> is_infinity y = false ->
  int_mul_float z y = Ok f -> is_nonneg f = true.
Proof.
  intros Hz Hy Hi. unfold int_mul_float.
  destruct (float_of_int z) as [x|] eqn:E; simpl; [|discriminate].
  intros [= <-]. destruct (float_of_int_nonneg z x Hz E).
  now apply SFmul_nonneg.
Qed.

Lemma int_div_float_nonneg (z : Z) (y f : float) :
  0 <= z -> is_nonneg y = true ->
  int_div_float z y = Ok f -> is_nonneg f = true.
Proof.
  intros Hz Hy. unfold int_div_float, float_div.
  destruct (float_of_int z) as [x|] eqn:E; simpl; [|discriminate].
  destruct (is_zero y) eqn:Ey; [discriminate|].
  intros [= <-]. destruct (float_of_int_nonneg z x Hz E).
  now apply SFdiv_nonneg.
Qed.

Lemma nonneg_defined (f : float) :
  is_nonneg f = true -> float_value f <> None.
Proof. destruct f; simpl; discriminate. Qed.

(** *** Truncation is the floor of a number that is not negative *)

Lemma pow_pos_Z (q : positive) : Zpos (2 ^ q)%positive = 2 ^ Zpos q.
Proof. apply Pos2Z.inj_pow. Qed.

Lemma truncate_floor (m : positive) (ex : Z) :
  truncate false m ex = Qfloor (finite_value false m ex).
Proof.
  unfold truncate, finite_value, Qfloor.
  destruct ex as [|q|q].
  - now rewrite Z.div_1_r.
  - now rewrite Z.div_1_r.
  - now rewrite pow_pos_Z.
Qed.

Lemma int_of_float_floor (f : float) (q : Q) :
  is_nonneg f = true -> float_value f = Some (Fin q) ->
  int_of_float f = Ok (Qfloor q).
Proof.
  destruct f as [s|s| |s m ex]; simpl; try discriminate.
  - intros _ [= <-]. reflexivity.
  - destruct s; discriminate.
  - intros Hs [= <-]. apply negb_true_iff in Hs. subst.
    now rewrite <- truncate_floor.
Qed.

(** *** The order of the comparisons *)

Lemma xcompare_refl (x : xreal) : xcompare x x = Eq.
Proof.
  destruct x; simpl; try reflexivity. apply Qeq_alt. apply Qeq_refl.
Qed.

Lemma xcompare_antisym (x y : xreal) :
  xcompare y x = CompOpp (xcompare x y).
Proof.
  destruct x, y; simpl; try reflexivity. symmetry. apply Qcompare_antisym.
Qed.

Lemma compare_antisym (a b : number) :
  compare b a = option_map CompOpp (compare a b).
Proof.
  unfold compare. destruct (value a), (value b); simpl; try reflexivity.
  now rewrite xcompare_antisym.
Qed.

Lemma compare_defined (a b : number) :
  value a <> None -> value b <> None -> exists c, compare a b = Some c.
Proof.
  unfold compare. destruct (value a), (value b); try congruence. eauto.
Qed.

Lemma py_lt_defined (a b : number) :
  py_lt a b = true -> value a <> None /\ value b <> None.
Proof.
  unfold py_lt, compare.
  destruct (value a), (value b); try discriminate. split; discriminate.
Qed.

Lemma py_le_refl (a : number) : value a <> None -> py_le a a = true.
Proof.
  unfold py_le, compare. destruct (value a) as [x|]; [|congruence].
  now rewrite xcompare_refl.
Qed.

(** Between numbers that are not NaNs, [not (a < b)] is [b <= a]. *)
Lemma py_lt_false (a b : number) :
  value a <> None -> value b <> None ->
  py_lt a b = false -> py_le b a = true.
Proof.
  intros Ha Hb. unfold py_lt, py_le. rewrite (compare_antisym a b).
  destruct (compare_defined a b Ha Hb) as [c ->]. simpl.
  destruct c; simpl; congruence.
Qed.

Lemma py_le_false (a b : number) :
  value a <> None -> value b <> None ->
  py_le a b = false -> py_lt b a = true.
Proof.
  intros Ha Hb. unfold py_lt, py_le. rewrite (compare_antisym a b).
  destruct (compare_defined a b Ha Hb) as [c ->]. simpl.
  destruct c; simpl; congruence.
Qed.

Lemma py_lt_not_ge (a b : number) :
  value a <> None -> value b <> None ->
  py_lt a b = negb (py_ge a b).
Proof.
  intros Ha Hb. unfold py_ge, py_lt, py_le. rewrite (compare_antisym a b).
  destruct (compare_defined a b Ha Hb) as [c ->]. simpl.
  destruct c; reflexivity.
Qed.

(** *** The arithmetic on known values *)

(** [0.1] is [0x3FB999999999999A]. *)
Example float_tenth :
  float_of_decimal 1 1 = S754_finite false 7205759403792794 (-56).
Proof. reflexivity. Qed.

(** [1e-6] is [0x3EB0C6F7A0B5ED8D]. *)
Example float_millionth :
  float_1e_6 = S754_finite false 4722366482869645 (-72).
Proof. reflexivity. Qed.

(** [49 * (1 / 49)] is [0.9999999999999999], and [int] of it is 0. *)
Example float_forty_ninth :
  (t <- int_truediv 1 49 ;; p <- int_mul_float 49 t ;;
   z <- int_of_float p ;; Ok (p, z))
  = Ok (S754_finite false 9007199254740991 (-53), 0).
Proof. reflexivity. Qed.

(** A text of four hundred digits is out of range and gives infinity, as
    [float] does; the smallest denormal is reached. *)
Example float_range :
  float_of_decimal (10 ^ 400) 0 = S754_infinity false /\
  float_of_decimal 3 324 = S754_finite false 1 (-1074) /\
  float_of_decimal 2 324 = S754_zero false.
Proof. repeat split; vm_compute; reflexivity. Qed.

(** [2^53 + 1] rounds to even. *)
Example float_of_int_ties :
  float_of_int (2 ^ 53 + 1) = Ok (S754_finite false 4503599627370496 1) /\
  float_of_int (2 ^ 53 + 3) = Ok (S754_finite false 4503599627370498 1).
Proof. split; vm_compute; reflexivity. Qed.

End PyNumFacts.

(** * The recognisers against the shapes of the specification *)

Module ShapeFacts.
Import PyStr PyNum YtShorts Spec PyStrFacts.

Lemma digits_all (s : string) : digits s -> all_digits s = true.
Proof. now intros [H _]. Qed.

Lemma digits_not_empty (s : string) : digits s -> is_empty s = false.
Proof. intros [_ H]. now apply is_empty_false. Qed.

(** The text after a literal and a non-empty run is not at [$]. *)
Lemma not_at_dollar (c : ascii) (g r : string) :
  digits g -> at_dollar (String c (g ++ r)) = false.
Proof. intros [_ H]. destruct g; [congruence | reflexivity]. Qed.

Lemma line_feed_tail (t s : string) :
  with_line_feed t s ->
  exists n, (n = EmptyString \/ n = String LF EmptyString)
            /\ s = (t ++ n)%string.
Proof.
  intros [->| ->]; [exists EmptyString | exists (String LF EmptyString)];
    split; auto. now rewrite append_nil_r.
Qed.

Lemma tail_at_dollar (n : string) :
  n = EmptyString \/ n = String LF EmptyString ->
  at_dollar n = true /\ head_is_digit n = false.
Proof. intros [->| ->]; split; reflexivity. Qed.

(** *** The plain number *)

Lemma re_plain_complete (t d s : string) (f : option string) :
  plain_number t d f -> with_line_feed t s -> re_plain s = true.
Proof.
  intros [Hd Hf] Hs. apply line_feed_tail in Hs as (n & Hn & ->).
  destruct (tail_at_dollar n Hn) as [Hn1 Hn2]. unfold re_plain.
  destruct f as [f|].
  - destruct Hf as [Hf ->]. rewrite !append_assoc. simpl.
    rewrite (span_digits_complete d _ (digits_all d Hd)) by reflexivity.
    rewrite (digits_not_empty d Hd), (not_at_dollar "." f n Hf). simpl.
    rewrite (span_digits_complete f n (digits_all f Hf) Hn2).
    now rewrite (digits_not_empty f Hf), Hn1.
  - subst t.
    rewrite (span_digits_complete d n (digits_all d Hd) Hn2).
    now rewrite (digits_not_empty d Hd), Hn1.
Qed.

Lemma re_plain_sound (s : string) :
  re_plain s = true ->
  exists t d f, plain_number t d f /\ with_line_feed t s.
Proof.
  unfold re_plain. destruct (span_digits s) as [d r] eqn:E.
  apply span_digits_sound in E as (-> & Hd & Hr).
  destruct (is_empty d) eqn:Ed; [discriminate|].
  apply is_empty_false in Ed.
  destruct (at_dollar r) eqn:Er.
  - intros _. exists d, d, None. split; [now repeat split|].
    apply at_dollar_cases in Er as [->| ->]; [left | right]; auto.
    now rewrite append_nil_r.
  - destruct r as [|c r]; [discriminate|]. simpl.
    destruct (Ascii.eqb_spec c ".") as [->|]; [|discriminate].
    destruct (span_digits r) as [f r2] eqn:E2.
    apply span_digits_sound in E2 as (-> & Hf & _).
    intros H. apply andb_prop in H as [Hf' H2].
    apply negb_true_iff, is_empty_false in Hf'.
    exists (d ++ "." ++ f)%string, d, (Some f).
    split; [now repeat split|].
    apply at_dollar_cases in H2 as [->| ->]; [left | right].
    + now rewrite append_nil_r.
    + now rewrite !append_assoc.
Qed.

Lemma plain_no_space (t d : string) (f : option string) :
  plain_number t d f -> no_space t = true.
Proof.
  intros [Hd Hf]. destruct f as [f|].
  - destruct Hf as [Hf ->]. rewrite no_space_app. simpl.
    now rewrite (all_digits_no_space d (digits_all d Hd)),
      (all_digits_no_space f (digits_all f Hf)).
  - subst. apply all_digits_no_space, (digits_all d Hd).
Qed.

(** [float] on a plain number, with or without the line feed. *)
Lemma py_float_plain (t d s : string) (f : option string) :
  plain_number t d f -> with_line_feed t s ->
  py_float s = Some (plain_value d f).
Proof.
  intros Hp Hs. unfold py_float.
  rewrite (strip_with_line_feed t s (plain_no_space t d f Hp) Hs).
  destruct Hp as [Hd Hf]. destruct f as [f|].
  - destruct Hf as [Hf ->]. simpl.
    rewrite (span_digits_complete d _ (digits_all d Hd)) by reflexivity.
    rewrite (digits_not_empty d Hd). simpl.
    rewrite <- (append_nil_r f) at 1.
    rewrite (span_digits_complete f "" (digits_all f Hf)) by reflexivity.
    now rewrite (digits_not_empty f Hf).
  - subst t. rewrite <- (append_nil_r d) at 1.
    rewrite (span_digits_complete d "" (digits_all d Hd)) by reflexivity.
    now rewrite (digits_not_empty d Hd).
Qed.

(** *** The clock time *)

Lemma re_hms_complete (t g1 g2 s : string) (g3 : option string) :
  clock_time t g1 g2 g3 -> with_line_feed t s ->
  re_hms s = Some (g1, g2, g3).
Proof.
  intros (H1 & [H2 L2] & H3) Hs. apply line_feed_tail in Hs as (n & Hn & ->).
  destruct (tail_at_dollar n Hn) as [Hn1 Hn2]. unfold re_hms.
  destruct g3 as [g3|].
  - destruct H3 as [[H3 L3] ->].
    repeat (rewrite append_assoc; cbn [append]).
    rewrite (span_digits_complete g1 _ (digits_all g1 H1)) by reflexivity.
    rewrite (digits_not_empty g1 H1). cbn [expect]. rewrite Ascii.eqb_refl.
    rewrite (span_digits_upto_complete 2 g2 _ (digits_all g2 H2) L2)
      by reflexivity.
    rewrite (digits_not_empty g2 H2), (not_at_dollar ":" g3 n H3).
    cbn [expect]. rewrite Ascii.eqb_refl.
    rewrite (span_digits_upto_complete 2 g3 n (digits_all g3 H3) L3 Hn2).
    now rewrite (digits_not_empty g3 H3), Hn1.
  - subst t. repeat (rewrite append_assoc; cbn [append]).
    rewrite (span_digits_complete g1 _ (digits_all g1 H1)) by reflexivity.
    rewrite (digits_not_empty g1 H1). cbn [expect]. rewrite Ascii.eqb_refl.
    rewrite (span_digits_upto_complete 2 g2 n (digits_all g2 H2) L2 Hn2).
    now rewrite (digits_not_empty g2 H2), Hn1.
Qed.

Lemma re_hms_sound (s g1 g2 : string) (g3 : option string) :
  re_hms s = Some (g1, g2, g3) ->
  exists t, clock_time t g1 g2 g3 /\ with_line_feed t s.
Proof.
  unfold re_hms. destruct (span_digits s) as [d r] eqn:E.
  apply span_digits_sound in E as (-> & Hd & Hr).
  destruct (is_empty d) eqn:Ed; [discriminate|].
  apply is_empty_false in Ed.
  destruct r as [|c r]; [discriminate|]. cbn [expect].
  destruct (Ascii.eqb_spec c ":") as [->|]; [|discriminate].
  destruct (span_digits_upto 2 r) as [m r2] eqn:E2.
  apply span_digits_upto_sound in E2 as (-> & Hm & Lm & _).
  destruct (is_empty m) eqn:Em; [discriminate|].
  apply is_empty_false in Em.
  destruct (at_dollar r2) eqn:Er2.
  - intros [= <- <- <-]. exists (d ++ ":" ++ m)%string.
    split; [now repeat split|].
    apply at_dollar_cases in Er2 as [->| ->]; [left | right].
    + now rewrite append_nil_r.
    + now rewrite !append_assoc.
  - destruct r2 as [|c2 r3]; [discriminate|]. cbn [expect].
    destruct (Ascii.eqb_spec c2 ":") as [->|]; [|discriminate].
    destruct (span_digits_upto 2 r3) as [x r4] eqn:E3.
    apply span_digits_upto_sound in E3 as (-> & Hx & Lx & _).
    destruct (negb (is_empty x) && at_dollar r4) eqn:E4; [|discriminate].
    apply andb_prop in E4 as [Ex E4].
    apply negb_true_iff, is_empty_false in Ex.
    intros [= <- <- <-]. exists (d ++ ":" ++ m ++ ":" ++ x)%string.
    split; [now repeat split|].
    apply at_dollar_cases in E4 as [->| ->]; [left | right].
    + now rewrite append_nil_r.
    + now repeat (rewrite append_assoc; cbn [append]).
Qed.

(** A clock time is never taken for a plain number. *)
Lemma re_plain_clock (t g1 g2 s : string) (g3 : option string) :
  clock_time t g1 g2 g3 -> with_line_feed t s -> re_plain s = false.
Proof.
  intros (H1 & [H2 L2] & H3) Hs. apply line_feed_tail in Hs as (n & Hn & ->).
  assert (exists r, (t ++ n)%string = (g1 ++ String ":" (g2 ++ r))%string)
    as [r ->].
  { destruct g3 as [g3|].
    - destruct H3 as [_ ->]. exists (":" ++ g3 ++ n)%string.
      now repeat (rewrite append_assoc; cbn [append]).
    - subst t. exists n. now repeat (rewrite append_assoc; cbn [append]). }
  unfold re_plain.
  rewrite (span_digits_complete g1 _ (digits_all g1 H1)) by reflexivity.
  now rewrite (digits_not_empty g1 H1), (not_at_dollar ":" g2 r H2).
Qed.

(** *** Ratios and resolutions *)

Lemma re_resolution_complete (t g1 g2 s : string) :
  resolution_text t g1 g2 -> with_line_feed t s ->
  re_resolution s = Some (g1, g2).
Proof.
  intros (H1 & H2 & ->) Hs. apply line_feed_tail in Hs as (n & Hn & ->).
  destruct (tail_at_dollar n Hn) as [Hn1 Hn2]. unfold re_resolution.
  repeat (rewrite append_assoc; cbn [append]).
  rewrite (span_digits_complete g1 _ (digits_all g1 H1)) by reflexivity.
  rewrite (digits_not_empty g1 H1). cbn [expect]. rewrite Ascii.eqb_refl.
  rewrite (span_digits_complete g2 n (digits_all g2 H2) Hn2).
  now rewrite (digits_not_empty g2 H2), Hn1.
Qed.

Lemma re_resolution_sound (s g1 g2 : string) :
  re_resolution s = Some (g1, g2) ->
  exists t, resolution_text t g1 g2 /\ with_line_feed t s.
Proof.
  unfold re_resolution. destruct (span_digits s) as [d r] eqn:E.
  apply span_digits_sound in E as (-> & Hd & Hr).
  destruct (is_empty d) eqn:Ed; [discriminate|].
  apply is_empty_false in Ed.
  destruct r as [|c r]; [discriminate|]. cbn [expect].
  destruct (Ascii.eqb_spec c "x") as [->|]; [|discriminate].
  destruct (span_digits r) as [m r2] eqn:E2.
  apply span_digits_sound in E2 as (-> & Hm & _).
  destruct (negb (is_empty m) && at_dollar r2) eqn:E3; [|discriminate].
  apply andb_prop in E3 as [Em E3].
  apply negb_true_iff, is_empty_false in Em.
  intros [= <- <-]. exists (d ++ "x" ++ m)%string.
  split; [now repeat split|].
  apply at_dollar_cases in E3 as [->| ->]; [left | right].
  - now rewrite append_nil_r.
  - now repeat (rewrite append_assoc; cbn [append]).
Qed.

Lemma re_ratio_groups (s g1 g2 : string) :
  re_ratio s = Some (g1, g2) -> digits g1 /\ digits g2.
Proof.
  unfold re_ratio. destruct (span_digits s) as [d r] eqn:E.
  apply span_digits_sound in E as (-> & Hd & Hr).
  destruct (is_empty d) eqn:Ed; [discriminate|].
  apply is_empty_false in Ed.
  destruct (expect ":" (lstrip r)) as [r1|]; [|discriminate].
  destruct (span_digits (lstrip r1)) as [m r2] eqn:E2.
  apply span_digits_sound in E2 as (_ & Hm & _).
  destruct (negb (is_empty m) && at_dollar r2) eqn:E3; [|discriminate].
  apply andb_prop in E3 as [Em _].
  apply negb_true_iff, is_empty_false in Em.
  intros [= <- <-]. now repeat split.
Qed.

(** *** Values of runs of digits *)

Lemma int_from_zero (s : string) (acc : Z) :
  all_digits s = true -> 0 <= acc ->
  (int_from acc s = 0 <-> acc = 0 /\ all_zeros s = true).
Proof.
  revert acc.
  induction s as [|c s IH]; intros acc H Hacc;
    cbn [int_from all_digits all_zeros] in *; [tauto|].
  apply andb_prop in H as [Hc Hs].
  pose proof (digit_value_range c Hc) as Hr.
  pose proof (digit_value_zero c Hc) as Hz.
  assert (0 <= 10 * acc + digit_value c) as Hn by lia.
  rewrite (IH _ Hs Hn), andb_true_iff, Ascii.eqb_eq.
  split.
  - intros [E Hs0]. assert (digit_value c = 0) as E0 by lia.
    repeat split; [lia | now apply Hz | exact Hs0].
  - intros (-> & Ec & Hs0). apply Hz in Ec. split; [lia | exact Hs0].
Qed.

(** The value of a run is positive unless every digit is a zero. *)
Lemma int_of_digits_positive (s : string) :
  all_digits s = true ->
  0 <= int_of_digits s /\ (0 < int_of_digits s <-> all_zeros s = false).
Proof.
  intros H. pose proof (int_of_digits_nonneg s H) as Hn.
  pose proof (int_from_zero s 0 H ltac:(lia)) as Hz.
  fold (int_of_digits s) in Hz. split; [exact Hn|].
  destruct (all_zeros s); split; intros; try discriminate; try reflexivity.
  - assert (int_of_digits s = 0) by (apply Hz; auto). lia.
  - assert (int_of_digits s <> 0)
      by (intros E; apply Hz in E as [_ E]; discriminate).
    lia.
Qed.

(** *** The conversion of a run of digits *)

Lemma int_of_str_within (s : string) :
  within_limit s -> int_of_str s = Ok (int_of_digits s).
Proof.
  unfold within_limit, int_of_str. intros H.
  now rewrite (proj2 (Z.leb_le _ _) H).
Qed.

Lemma int_of_str_beyond (s : string) :
  ~ within_limit s -> int_of_str s = Raise DigitLimitError.
Proof.
  unfold within_limit, int_of_str. intros H.
  destruct (Z.leb_spec (Z.of_nat (String.length s)) int_max_str_digits);
    [contradiction | reflexivity].
Qed.

Lemma int_of_str_ok (s : string) (z : Z) :
  int_of_str s = Ok z -> z = int_of_digits s /\ within_limit s.
Proof.
  unfold within_limit, int_of_str.
  destruct (Z.leb_spec (Z.of_nat (String.length s)) int_max_str_digits);
    [|discriminate].
  intros [= <-]. now split.
Qed.

Lemma int_of_str_raise (s : string) (e : exn) :
  int_of_str s = Raise e -> e = DigitLimitError /\ ~ within_limit s.
Proof.
  unfold within_limit, int_of_str.
  destruct (Z.leb_spec (Z.of_nat (String.length s)) int_max_str_digits);
    [discriminate|].
  intros [= <-]. split; [reflexivity | lia].
Qed.

Lemma within_limit_dec (s : string) : within_limit s \/ ~ within_limit s.
Proof. unfold within_limit. lia. Qed.

(** The minutes and the seconds have one or two digits. *)
Lemma int_of_str_field (g : string) :
  one_or_two g -> int_of_str g = Ok (int_of_digits g).
Proof.
  intros [_ H]. apply int_of_str_within. unfold within_limit,
    int_max_str_digits. lia.
Qed.

(** The clock branch of the time parser: only the hours can be refused. *)
Lemma parse_time_hms (s g1 g2 : string) (g3 : option string) :
  re_plain s = false -> re_hms s = Some (g1, g2, g3) ->
  parse_time s
  = (h <- int_of_str g1 ;;
     Ok (PInt (h * 3600 + int_of_digits g2 * 60
               + match g3 with Some g => int_of_digits g | None => 0 end))).
Proof.
  intros Hp Hm. unfold parse_time. rewrite Hp, Hm.
  apply re_hms_sound in Hm as (t & (_ & H2 & H3) & _).
  rewrite (int_of_str_field g2 H2).
  destruct (int_of_str g1) as [h|e]; [|reflexivity]. cbn [bind].
  destruct g3 as [g3|]; [|reflexivity].
  destruct H3 as [H3 _]. now rewrite (int_of_str_field g3 H3).
Qed.

Lemma parse_time_hms_ok (s g1 g2 : string) (g3 : option string) (v : number) :
  re_plain s = false -> re_hms s = Some (g1, g2, g3) ->
  parse_time s = Ok v ->
  v = PInt (clock_value g1 g2 g3) /\ within_limit g1.
Proof.
  intros Hp Hm. rewrite (parse_time_hms s g1 g2 g3 Hp Hm).
  destruct (int_of_str g1) as [h|e] eqn:E; [|discriminate].
  apply int_of_str_ok in E as [-> Hl]. cbn [bind]. intros [= <-].
  now split.
Qed.

(** What the time parser raises. *)
Lemma parse_time_raise_kind (x : string) (e : exn) :
  parse_time x = Raise e ->
  e = InvalidTimeFormat x \/ e = FloatSyntaxError x \/ e = DigitLimitError.
Proof.
  destruct (re_plain x) eqn:E.
  - unfold parse_time. rewrite E.
    destruct (py_float x); [discriminate|]. intros [= <-]. auto.
  - destruct (re_hms x) as [[[g1 g2] g3]|] eqn:E2.
    + rewrite (parse_time_hms x g1 g2 g3 E E2).
      destruct (int_of_str g1) as [h|e'] eqn:E3; [discriminate|].
      cbn [bind]. intros [= <-].
      apply int_of_str_raise in E3 as [-> _]. auto.
    + unfold parse_time. rewrite E, E2. intros [= <-]. auto.
Qed.

(** What the splitting of a part raises. *)
Lemma split_part_raise_kind (part : string) (e : exn) :
  split_part part = Raise e -> exists n, e = UnpackError n.
Proof.
  unfold split_part, unpack2.
  destruct (colon_pair part);
    match goal with
    | |- context [split ?c part] =>
        destruct (split c part) as [|x [|y [|z l]]]
    end; intros [= <-]; eauto.
Qed.

Lemma parse_time_clock_within (t g1 g2 s : string) (g3 : option string) :
  clock_time t g1 g2 g3 -> with_line_feed t s -> within_limit g1 ->
  parse_time s = Ok (PInt (clock_value g1 g2 g3)).
Proof.
  intros Hc Hs Hl.
  rewrite (parse_time_hms s g1 g2 g3 (re_plain_clock t g1 g2 s g3 Hc Hs)
             (re_hms_complete t g1 g2 s g3 Hc Hs)).
  now rewrite (int_of_str_within g1 Hl).
Qed.

Lemma parse_time_clock_beyond (t g1 g2 s : string) (g3 : option string) :
  clock_time t g1 g2 g3 -> with_line_feed t s -> ~ within_limit g1 ->
  parse_time s = Raise DigitLimitError.
Proof.
  intros Hc Hs Hl.
  rewrite (parse_time_hms s g1 g2 g3 (re_plain_clock t g1 g2 s g3 Hc Hs)
             (re_hms_complete t g1 g2 s g3 Hc Hs)).
  now rewrite (int_of_str_beyond g1 Hl).
Qed.

End ShapeFacts.

(** * The time parser *)

Module TimeParser.
Import PyStr PyNum YtShorts Spec PyStrFacts PyNumFacts ShapeFacts.

Lemma digits_without (c : ascii) (d : string) :
  is_digit c = false -> all_digits d = true -> contains c d = false.
Proof.
  intros Hc. induction d as [|a d IH]; simpl; [reflexivity|]. intros H.
  apply andb_prop in H as [Ha Hd]. rewrite (IH Hd), orb_false_r.
  apply Ascii.eqb_neq. intros ->. congruence.
Qed.

Lemma plain_without_line_feed (t d : string) (f : option string) :
  plain_number t d f -> contains LF t = false.
Proof.
  intros [[Hd _] Hf]. destruct f as [f|].
  - destruct Hf as [[Hf _] ->]. rewrite contains_app. cbn [append contains].
    now rewrite !digits_without.
  - subst. now apply digits_without.
Qed.

Lemma clock_without_line_feed (t g1 g2 : string) (g3 : option string) :
  clock_time t g1 g2 g3 -> contains LF t = false.
Proof.
  intros ([H1 _] & [[H2 _] _] & H3). destruct g3 as [g3|].
  - destruct H3 as [[[H3 _] _] ->].
    rewrite contains_app. cbn [append contains]. rewrite contains_app.
    cbn [append contains]. now rewrite !digits_without.
  - subst. rewrite contains_app. cbn [append contains].
    now rewrite !digits_without.
Qed.

Lemma plain_value_nonneg (d : string) (f : option string) (t : string) :
  plain_number t d f -> is_nonneg (plain_value d f) = true.
Proof.
  intros [[Hd _] Hf]. unfold plain_value. destruct f as [f|].
  - destruct Hf as [[Hf _] _]. apply float_of_decimal_nonneg.
    apply int_of_digits_nonneg. now rewrite all_digits_app, Hd, Hf.
  - now apply float_of_decimal_nonneg, int_of_digits_nonneg.
Qed.

(** What the parser returns is never a NaN. *)
Lemma parse_time_defined (s : string) (v : number) :
  parse_time s = Ok v -> value v <> None.
Proof.
  destruct (re_plain s) eqn:E.
  - unfold parse_time. rewrite E.
    apply re_plain_sound in E as (t & d & f & Hp & Hs).
    rewrite (py_float_plain t d s f Hp Hs). intros [= <-]. simpl.
    apply nonneg_defined, (plain_value_nonneg d f t Hp).
  - destruct (re_hms s) as [[[g1 g2] g3]|] eqn:E2.
    + rewrite (parse_time_hms s g1 g2 g3 E E2).
      destruct (int_of_str g1); [|discriminate].
      intros [= <-]. discriminate.
    + unfold parse_time. rewrite E, E2. discriminate.
Qed.

(** The cases of the time parser.  A token that is a plain number [d] or
    [d.f], alone or followed by one line feed, parses to [float] of the
    token, the nearest binary64 to the decimal; a token that is [H:MM] or
    [H:MM:SS] (one or two digits for the minutes and for the seconds), alone
    or followed by one line feed, parses to [h*3600 + mm*60 + ss] with
    [ss = 0] when it is absent, unless the hours have more digits than
    [int] converts, which raises the error of the conversion; every other
    token raises [InvalidTimeFormat] with the token. *)
Theorem parse_time_cases (s : string) :
  (forall t d f, plain_number t d f -> with_line_feed t s ->
     py_float s = Some (plain_value d f) /\
     parse_time s = Ok (PFloat (plain_value d f))) /\
  (forall t g1 g2 g3, clock_time t g1 g2 g3 -> with_line_feed t s ->
     (within_limit g1 -> parse_time s = Ok (PInt (clock_value g1 g2 g3))) /\
     (~ within_limit g1 -> parse_time s = Raise DigitLimitError)) /\
  ((forall t d f, plain_number t d f -> ~ with_line_feed t s) ->
   (forall t g1 g2 g3, clock_time t g1 g2 g3 -> ~ with_line_feed t s) ->
   parse_time s = Raise (InvalidTimeFormat s)).
Proof.
  split; [|split].
  - intros t d f Hp Hs. split.
    + now apply (py_float_plain t d s f).
    + unfold parse_time.
      now rewrite (re_plain_complete t d s f), (py_float_plain t d s f).
  - intros t g1 g2 g3 Hc Hs. split.
    + now apply (parse_time_clock_within t g1 g2 s g3).
    + now apply (parse_time_clock_beyond t g1 g2 s g3).
  - intros Hp Hc. unfold parse_time.
    destruct (re_plain s) eqn:E.
    + apply re_plain_sound in E as (t & d & f & H1 & H2).
      now destruct (Hp t d f H1).
    + destruct (re_hms s) as [[[g1 g2] g3]|] eqn:E2; [|reflexivity].
      apply re_hms_sound in E2 as (t & H1 & H2).
      now destruct (Hc t g1 g2 g3 H1).
Qed.

Lemma parse_time_cases_witness :
  parse_time "1:30:45" = Ok (PInt 5445) /\
  parse_time "90.5" = Ok (PFloat (float_of_decimal 905 1)) /\
  parse_time "12:60:99x" = Raise (InvalidTimeFormat "12:60:99x").
Proof.
  split; [|split].
  - apply (proj1 (proj2 (parse_time_cases "1:30:45"))
             "1:30:45" "1" "30" (Some "45")).
    + unfold clock_time, one_or_two, digits. simpl.
      repeat split; try discriminate; lia.
    + now left.
    + unfold within_limit, int_max_str_digits. simpl. lia.
  - apply (proj1 (parse_time_cases "90.5") "90.5" "90" (Some "5")).
    + unfold plain_number, digits. simpl. repeat split; discriminate.
    + now left.
  - reflexivity.
Defined.

(** C3.  The token ["12"] followed by a line feed is neither a plain
    number nor a clock time, so that the claim has the time parser fail
    with [InvalidTimeFormat]; the parser returns 12.0 for it: both patterns
    end in [$], which also matches before a line feed that ends the
    token. *)
Theorem parse_time_line_feed :
  let s := String "1" (String "2" (String LF EmptyString)) in
  (forall d f, ~ plain_number s d f) /\
  (forall g1 g2 g3, ~ clock_time s g1 g2 g3) /\
  parse_time s = Ok (PFloat (float_of_decimal 12 0)) /\
  parse_time s <> Raise (InvalidTimeFormat s) /\
  ~ time_parser_claim s.
Proof.
  intros s.
  assert (forall d f, ~ plain_number s d f) as Hp.
  { intros d f Hp. apply plain_without_line_feed in Hp. discriminate Hp. }
  assert (forall g1 g2 g3, ~ clock_time s g1 g2 g3) as Hc.
  { intros g1 g2 g3 Hc. apply clock_without_line_feed in Hc.
    discriminate Hc. }
  assert (parse_time s = Ok (PFloat (float_of_decimal 12 0))) as Hv
    by (vm_compute; reflexivity).
  split; [exact Hp|]. split; [exact Hc|]. split; [exact Hv|].
  split; [rewrite Hv; discriminate|].
  intros (_ & _ & H). rewrite (H Hp Hc) in Hv. discriminate Hv.
Qed.

End TimeParser.

(** * The segment spec parser *)

Module SegmentParser.
Import PyStr PyNum YtShorts Spec PyStrFacts PyNumFacts ShapeFacts TimeParser.

(** *** The loop *)

Lemma collect_segments_app (pre rest : list string) (d : number)
      (acc : list segment) :
  collect_segments (pre ++ rest) d acc =
  (segs <- collect_segments pre d acc ;; collect_segments rest d segs).
Proof.
  revert acc. induction pre as [|p pre IH]; intros acc; simpl; [reflexivity|].
  destruct (segment_of_part p d) as [[seg|]|e]; simpl; auto.
Qed.

(** A failure of the loop is the failure of one of its parts. *)
Lemma collect_segments_raise (parts : list string) (d : number)
      (acc : list segment) (e : exn) :
  collect_segments parts d acc = Raise e ->
  exists p, In p parts /\ segment_of_part p d = Raise e.
Proof.
  revert acc. induction parts as [|p parts IH]; intros acc; simpl;
    [discriminate|].
  destruct (segment_of_part p d) as [[seg|]|e'] eqn:E; simpl.
  - intros H. destruct (IH _ H) as (q & Hq & Hr). eauto.
  - intros H. destruct (IH _ H) as (q & Hq & Hr). eauto.
  - intros [= <-]. eauto.
Qed.

(** Only the part itself is reported as an invalid segment. *)
Lemma invalid_segment_names_part (p q : string) (d : number) :
  segment_of_part p d = Raise (InvalidSegment q) -> q = p.
Proof.
  unfold segment_of_part.
  destruct (split_part p) as [[a b]|e] eqn:Es; cbn [bind].
  - destruct (parse_time a) as [st|e] eqn:Ea; cbn [bind].
    + destruct (parse_time b) as [en|e] eqn:Eb; cbn [bind].
      * destruct (py_lt st (PInt 0) || py_le en st); [congruence|].
        destruct (py_ge st d); discriminate.
      * intros [= ->].
        apply parse_time_raise_kind in Eb as [H|[H|H]]; discriminate.
    + intros [= ->].
      apply parse_time_raise_kind in Ea as [H|[H|H]]; discriminate.
  - intros [= ->]. apply split_part_raise_kind in Es as [n H].
    discriminate.
Qed.

(** The loop body is the range of the part, then the look at the
    duration. *)
Lemma segment_of_part_range (part : string) (d : number) :
  segment_of_part part d =
  (r <- range_of_part part ;;
   if py_ge (fst r) d then Ok None
   else Ok (Some (fst r, py_min (snd r) d))).
Proof.
  unfold segment_of_part, range_of_part.
  destruct (split_part part) as [[a b]|e]; simpl; [|reflexivity].
  destruct (parse_time a) as [s|e]; simpl; [|reflexivity].
  destruct (parse_time b) as [e|e']; simpl; [|reflexivity].
  destruct (py_lt s (PInt 0) || py_le e s); reflexivity.
Qed.

Lemma range_of_part_ordered (part : string) (r : segment) :
  range_of_part part = Ok r ->
  value (fst r) <> None /\ value (snd r) <> None /\
  py_le (PInt 0) (fst r) = true /\ py_lt (fst r) (snd r) = true.
Proof.
  unfold range_of_part.
  destruct (split_part part) as [[a b]|e]; simpl; [|discriminate].
  destruct (parse_time a) as [s|e] eqn:Es; simpl; [|discriminate].
  destruct (parse_time b) as [e|e'] eqn:Ee; simpl; [|discriminate].
  destruct (py_lt s (PInt 0) || py_le e s) eqn:E; [discriminate|].
  intros [= <-]. simpl.
  apply orb_false_elim in E as [E1 E2].
  pose proof (parse_time_defined a s Es) as Hs.
  pose proof (parse_time_defined b e Ee) as He.
  repeat split; auto.
  - apply py_lt_false; auto. discriminate.
  - apply py_le_false; auto.
Qed.

(** *** Dropping and clamping *)

Lemma clamp_all_cons (d : number) (r : segment) (rs : list segment) :
  clamp_all d (r :: rs) =
  if py_lt (fst r) d then (fst r, py_min (snd r) d) :: clamp_all d rs
  else clamp_all d rs.
Proof. unfold clamp_all. simpl. now destruct (py_lt (fst r) d). Qed.

Lemma collect_ranges (d : number) (parts : list string)
      (ranges : list segment) :
  value d <> None ->
  Forall2 (fun part r => range_of_part part = Ok r) parts ranges ->
  forall acc, collect_segments parts d acc = Ok (acc ++ clamp_all d ranges).
Proof.
  intros Hd. induction 1 as [|p r parts ranges Hr _ IH]; intros acc.
  - simpl. now rewrite app_nil_r.
  - cbn [collect_segments]. rewrite segment_of_part_range, Hr. simpl.
    rewrite clamp_all_cons.
    destruct (range_of_part_ordered p r Hr) as (Hs & _).
    rewrite (py_lt_not_ge (fst r) d Hs Hd).
    destruct (py_ge (fst r) d); simpl.
    + apply IH.
    + rewrite IH, <- app_assoc. reflexivity.
Qed.

Lemma clamped_well_formed (d : number) (r : segment) :
  value d <> None ->
  value (snd r) <> None ->
  py_le (PInt 0) (fst r) = true -> py_lt (fst r) (snd r) = true ->
  py_lt (fst r) d = true ->
  well_formed d (fst r, py_min (snd r) d).
Proof.
  intros Hd He H0 Hse Hsd. unfold well_formed, py_min. simpl.
  destruct (py_lt d (snd r)) eqn:E; repeat split; auto.
  - now apply py_le_refl.
  - now apply py_lt_false.
Qed.

(** C1.  When every part of the spec splits, parses and validates, and
    the duration is above zero, [parse_segments] returns, in the order of
    the parts, the ranges that start before the duration, each with its
    end replaced by [min(end, duration)]; the ranges that start at or after
    the duration are left out and nothing is raised; and every segment
    returned has [0 <= start < end <= duration]. *)
Theorem parse_segments_clamps (spec : string) (d : number)
        (ranges : list segment) :
  py_gt d (PInt 0) = true ->
  Forall2 (fun part r => range_of_part part = Ok r) (spec_parts spec) ranges ->
  parse_segments spec d = Ok (clamp_all d ranges) /\
  Forall (fun r => py_lt (fst r) d = negb (py_ge (fst r) d)) ranges /\
  Forall (well_formed d) (clamp_all d ranges).
Proof.
  intros Hd Hr. apply py_lt_defined in Hd as [_ Hd].
  assert (Forall (fun r => value (fst r) <> None /\ value (snd r) <> None /\
                           py_le (PInt 0) (fst r) = true /\
                           py_lt (fst r) (snd r) = true) ranges) as Ho.
  { clear Hd. induction Hr as [|p r parts rs Hp _ IH]; constructor; auto.
    exact (range_of_part_ordered p r Hp). }
  split; [|split].
  - unfold parse_segments. now rewrite (collect_ranges d _ ranges Hd Hr).
  - apply Forall_forall. intros r Hin.
    rewrite Forall_forall in Ho. destruct (Ho r Hin) as (Hs & _).
    now apply py_lt_not_ge.
  - apply Forall_forall. intros seg Hin. unfold clamp_all in Hin.
    apply in_map_iff in Hin as (r & <- & Hin).
    apply filter_In in Hin as [Hin Hlt].
    rewrite Forall_forall in Ho. destruct (Ho r Hin) as (Hs & He & H0 & Hse).
    now apply clamped_well_formed.
Qed.

Lemma parse_segments_clamps_witness :
  let sec n := PFloat (float_of_decimal n 0) in
  py_gt Demo.hundred (PInt 0) = true /\
  parse_segments "10-20, 95-120,150-160" Demo.hundred
  = Ok [(sec 10, sec 20); (sec 95, Demo.hundred)] /\
  Forall (well_formed Demo.hundred) [(sec 10, sec 20); (sec 95, Demo.hundred)].
Proof.
  intros sec.
  assert (py_gt Demo.hundred (PInt 0) = true) as Hd by reflexivity.
  split; [exact Hd|].
  destruct (parse_segments_clamps "10-20, 95-120,150-160" Demo.hundred
              [(sec 10, sec 20); (sec 95, sec 120); (sec 150, sec 160)] Hd)
    as (H1 & _ & H2).
  - repeat constructor.
  - split; [exact H1 | exact H2].
Defined.

(** *** The separator *)

Lemma colon_pair_iff (part : string) :
  colon_pair part = true <->
  contains "-" part = false /\ count ":" part = 1%nat.
Proof.
  unfold colon_pair. rewrite !andb_true_iff, negb_true_iff, Nat.eqb_eq.
  split; [tauto|]. intros [H1 H2]. repeat split; auto.
  destruct (contains ":" part) eqn:E; [reflexivity|].
  apply contains_count in E. congruence.
Qed.

Lemma colon_pair_split (part : string) :
  colon_pair part = true ->
  exists a b, part = (a ++ ":" ++ b)%string /\ split_part part = Ok (a, b)
              /\ contains ":" a = false /\ contains ":" b = false.
Proof.
  intros H. unfold split_part. rewrite H.
  apply colon_pair_iff in H as [_ H].
  destruct (split_once ":" part H) as (a & b & E).
  destruct (split_pair ":" part a b E) as (-> & Ha & Hb).
  exists a, b. rewrite E. auto.
Qed.

Lemma hyphen_split (part a b : string) :
  colon_pair part = false -> split_part part = Ok (a, b) ->
  part = (a ++ "-" ++ b)%string /\ contains "-" a = false
  /\ contains "-" b = false.
Proof.
  intros H. unfold split_part, unpack2. rewrite H.
  destruct (split "-" part) as [|x [|y [|z l]]] eqn:E; try discriminate.
  intros [= -> ->]. exact (split_pair "-" part a b E).
Qed.

Lemma clock_has_colon (t g1 g2 s : string) (g3 : option string) :
  clock_time t g1 g2 g3 -> with_line_feed t s -> contains ":" s = true.
Proof.
  intros (_ & _ & H3) Hs.
  assert (contains ":" t = true) as Ht.
  { destruct g3 as [g3|]; [destruct H3 as [_ ->] | subst t];
      rewrite contains_app; cbn [append contains];
      rewrite Ascii.eqb_refl; apply orb_true_r. }
  destruct Hs as [->| ->]; [exact Ht|].
  rewrite contains_app, Ht. reflexivity.
Qed.

(** Without a colon, only a plain number parses. *)
Lemma parse_time_plain_seconds (x : string) (v : number) :
  contains ":" x = false -> parse_time x = Ok v ->
  exists f, py_float x = Some f /\ v = PFloat f.
Proof.
  intros Hx. unfold parse_time. destruct (re_plain x).
  - destruct (py_float x) as [f|]; [|discriminate].
    intros [= <-]. eauto.
  - destruct (re_hms x) as [[[g1 g2] g3]|] eqn:E; [|discriminate].
    apply re_hms_sound in E as (t & Hc & Hs).
    rewrite (clock_has_colon t g1 g2 x g3 Hc Hs) in Hx. discriminate.
Qed.

Lemma segment_of_part_halves (part a b : string) (s e d : number) :
  split_part part = Ok (a, b) -> parse_time a = Ok s -> parse_time b = Ok e ->
  segment_of_part part d =
  if py_lt s (PInt 0) || py_le e s then Raise (InvalidSegment part)
  else if py_ge s d then Ok None
  else Ok (Some (s, py_min e d)).
Proof.
  intros H1 H2 H3. unfold segment_of_part.
  rewrite H1. cbn [bind]. rewrite H2. cbn [bind]. now rewrite H3.
Qed.

Lemma segment_of_part_parsed (part a b : string) (d : number) (seg : segment) :
  split_part part = Ok (a, b) -> segment_of_part part d = Ok (Some seg) ->
  parse_time a = Ok (fst seg) /\
  exists e, parse_time b = Ok e /\ snd seg = py_min e d.
Proof.
  intros H1. unfold segment_of_part. rewrite H1. simpl.
  destruct (parse_time a) as [s|]; simpl; [|discriminate].
  destruct (parse_time b) as [e|]; simpl; [|discriminate].
  destruct (py_lt s (PInt 0) || py_le e s); [discriminate|].
  destruct (py_ge s d); [discriminate|].
  intros [= <-]. simpl. eauto.
Qed.

(** The choice of the separator.  A part without a hyphen and with
    exactly one colon is split at the colon, and each half then parses
    only as a plain number of seconds; every other part is split at its
    hyphens, and when that gives two halves they are the texts around the
    only hyphen; in both cases the halves go through the time parser. *)
Theorem separator_rule (part : string) :
  (contains "-" part = false /\ count ":" part = 1%nat ->
   exists a b,
     part = (a ++ ":" ++ b)%string /\ split_part part = Ok (a, b) /\
     contains ":" a = false /\ contains ":" b = false /\
     forall x v, x = a \/ x = b -> parse_time x = Ok v ->
                 exists f, py_float x = Some f /\ v = PFloat f) /\
  (~ (contains "-" part = false /\ count ":" part = 1%nat) ->
   split_part part = unpack2 (split "-" part) /\
   forall a b, split_part part = Ok (a, b) ->
               part = (a ++ "-" ++ b)%string /\
               contains "-" a = false /\ contains "-" b = false) /\
  (forall a b d seg,
     split_part part = Ok (a, b) -> segment_of_part part d = Ok (Some seg) ->
     parse_time a = Ok (fst seg) /\
     exists e, parse_time b = Ok e /\ snd seg = py_min e d).
Proof.
  split; [|split].
  - intros H. apply colon_pair_iff in H.
    destruct (colon_pair_split part H) as (a & b & E & Hs & Ha & Hb).
    exists a, b. repeat split; auto.
    intros x v [->| ->]; now apply parse_time_plain_seconds.
  - intros H. assert (colon_pair part = false) as E.
    { destruct (colon_pair part) eqn:E; [|reflexivity].
      apply colon_pair_iff in E. contradiction. }
    split; [unfold split_part; now rewrite E|].
    intros a b. now apply hyphen_split.
  - intros a b d seg. apply segment_of_part_parsed.
Qed.

Lemma separator_rule_witness :
  exists a b, "0:10" = (a ++ ":" ++ b)%string /\ split_part "0:10" = Ok (a, b).
Proof.
  destruct (proj1 (separator_rule "0:10")) as (a & b & H1 & H2 & _).
  - split; reflexivity.
  - exists a, b. split; assumption.
Defined.

(** C2.  With duration 100, the colon form of the example,
    ["0:10,30:45"], gives [[(0,10),(30,45)]].  The hyphen form, which the
    help of [--segments] offers as another writing of the same ranges, does
    not: ["00:00-00:10,00:30-00:45"] gives [[(0,100)]], since the time
    parser reads [00:10] as ten minutes and [00:30] as thirty. *)
Theorem hyphen_example_differs :
  (forall d, d = PInt 100 \/ d = Demo.hundred ->
     (exists r, parse_segments "0:10,30:45" d = Ok r /\
                same_segments r [(0, 10); (30, 45)] = true) /\
     (exists r, parse_segments "00:00-00:10,00:30-00:45" d = Ok r /\
                same_segments r [(0, 100)] = true /\
                same_segments r [(0, 10); (30, 45)] = false)) /\
  parse_time "00:10" = Ok (PInt 600) /\
  parse_time "00:30" = Ok (PInt 1800).
Proof.
  split; [|split; reflexivity].
  intros d [->| ->]; split; eexists; repeat split;
    try (vm_compute; reflexivity).
Qed.

(** *** Failures *)

(** The first part that fails decides the failure of the parser. *)
Lemma parse_segments_first_failure (spec : string) (d : number)
      (pre post : list string) (part : string) (segs : list segment)
      (e : exn) :
  spec_parts spec = pre ++ part :: post ->
  collect_segments pre d [] = Ok segs ->
  segment_of_part part d = Raise e ->
  parse_segments spec d = Raise e.
Proof.
  intros Hs Hp He. unfold parse_segments.
  rewrite Hs, collect_segments_app, Hp. simpl. now rewrite He.
Qed.

(** C8.  For a part whose two halves parse to [start] and [end], reached
    after parts that raise nothing, the parser raises [InvalidSegment] for
    that part exactly when [start < 0] or [end <= start]; the duration has
    no say, and ["10-5"] is an invalid segment for every duration. *)
Theorem invalid_segment_iff (spec : string) (d : number)
        (pre post : list string) (part a b : string) (segs : list segment)
        (start end_ : number) :
  spec_parts spec = pre ++ part :: post ->
  collect_segments pre d [] = Ok segs ->
  split_part part = Ok (a, b) ->
  parse_time a = Ok start -> parse_time b = Ok end_ ->
  (segment_of_part part d = Raise (InvalidSegment part) <->
   py_lt start (PInt 0) = true \/ py_le end_ start = true) /\
  (parse_segments spec d = Raise (InvalidSegment part) <->
   py_lt start (PInt 0) = true \/ py_le end_ start = true) /\
  (forall d', parse_segments "10-5" d' = Raise (InvalidSegment "10-5")).
Proof.
  intros Hs Hp Hab Ha Hb.
  pose proof (segment_of_part_halves part a b start end_ d Hab Ha Hb) as Hseg.
  assert (segment_of_part part d = Raise (InvalidSegment part) <->
          py_lt start (PInt 0) = true \/ py_le end_ start = true) as Htok.
  { rewrite Hseg, <- orb_true_iff.
    destruct (py_lt start (PInt 0) || py_le end_ start).
    - tauto.
    - split; [|discriminate]. destruct (py_ge start d); discriminate. }
  split; [exact Htok|]. split.
  - split.
    + intros H. apply Htok.
      unfold parse_segments in H.
      rewrite Hs, collect_segments_app, Hp in H. simpl in H.
      destruct (segment_of_part part d) as [r|e] eqn:E.
      * simpl in H.
        assert (exists q, In q post /\
                          segment_of_part q d = Raise (InvalidSegment part))
          as (q & _ & Hq)
          by (destruct r; exact (collect_segments_raise _ _ _ _ H)).
        rewrite (invalid_segment_names_part q part d Hq) in E.
        congruence.
      * simpl in H. injection H as ->. reflexivity.
    + intros H. apply Htok in H.
      exact (parse_segments_first_failure spec d pre post part segs _ Hs Hp H).
  - intros d'. reflexivity.
Qed.

Lemma invalid_segment_iff_witness :
  parse_segments "0-10,20-15,x" Demo.hundred = Raise (InvalidSegment "20-15").
Proof.
  apply (proj1 (proj2 (invalid_segment_iff "0-10,20-15,x" Demo.hundred
           ["0-10"] ["x"] "20-15" "20" "15"
           [(PFloat (float_of_decimal 0 0), PFloat (float_of_decimal 10 0))]
           (PFloat (float_of_decimal 20 0)) (PFloat (float_of_decimal 15 0))
           eq_refl eq_refl eq_refl eq_refl eq_refl))).
  right. reflexivity.
Defined.

Lemma split_part_without_hyphen (part : string) :
  contains "-" part = false -> count ":" part <> 1%nat ->
  split_part part = Raise (UnpackError 1).
Proof.
  intros H1 H2. unfold split_part.
  assert (colon_pair part = false) as ->.
  { destruct (colon_pair part) eqn:E; [|reflexivity].
    apply colon_pair_iff in E as [_ E]. contradiction. }
  now rewrite (split_without "-" part H1).
Qed.

Lemma split_part_hyphens (part : string) :
  (2 <= count "-" part)%nat ->
  split_part part = Raise (UnpackError (S (count "-" part))).
Proof.
  intros H. unfold split_part.
  assert (colon_pair part = false) as ->.
  { destruct (colon_pair part) eqn:E; [|reflexivity].
    apply colon_pair_iff in E as [E _]. apply contains_count in E. lia. }
  pose proof (split_length "-" part) as L. unfold unpack2.
  destruct (split "-" part) as [|x [|y [|z l]]]; simpl in L; try lia.
  now rewrite <- L.
Qed.

(** C10.  A part without a hyphen that does not have exactly one colon,
    and a part with two hyphens or more, reached after parts that raise
    nothing, make the parser fail in the tuple assignment: the split at the
    hyphens gives one piece, or three and more, and the failure is neither
    [InvalidTimeFormat] nor [InvalidSegment]. *)
Theorem unpacking_fails (spec : string) (d : number)
        (pre post : list string) (part : string) (segs : list segment) :
  spec_parts spec = pre ++ part :: post ->
  collect_segments pre d [] = Ok segs ->
  (contains "-" part = false -> count ":" part <> 1%nat ->
   List.length (split "-" part) = 1%nat /\
   parse_segments spec d = Raise (UnpackError 1)) /\
  ((2 <= count "-" part)%nat ->
   List.length (split "-" part) = S (count "-" part) /\
   parse_segments spec d = Raise (UnpackError (S (count "-" part)))).
Proof.
  intros Hs Hp. split.
  - intros H1 H2. split; [now rewrite (split_without "-" part H1)|].
    apply (parse_segments_first_failure spec d pre post part segs _ Hs Hp).
    unfold segment_of_part.
    now rewrite (split_part_without_hyphen part H1 H2).
  - intros H. split; [apply split_length|].
    apply (parse_segments_first_failure spec d pre post part segs _ Hs Hp).
    unfold segment_of_part. now rewrite (split_part_hyphens part H).
Qed.

Lemma unpacking_fails_witness :
  parse_segments "90" Demo.hundred = Raise (UnpackError 1) /\
  parse_segments "0-10, 1:30:45" Demo.hundred = Raise (UnpackError 1) /\
  parse_segments "0-10,1-2-3" Demo.hundred = Raise (UnpackError 3).
Proof.
  split; [|split].
  - apply (proj1 (unpacking_fails "90" Demo.hundred [] [] "90" []
                    eq_refl eq_refl)); [reflexivity | discriminate].
  - apply (proj1 (unpacking_fails "0-10, 1:30:45" Demo.hundred
                    ["0-10"] [] "1:30:45"
                    [(PFloat (float_of_decimal 0 0),
                      PFloat (float_of_decimal 10 0))]
                    eq_refl eq_refl)); [reflexivity | discriminate].
  - apply (proj2 (unpacking_fails "0-10,1-2-3" Demo.hundred
                    ["0-10"] [] "1-2-3"
                    [(PFloat (float_of_decimal 0 0),
                      PFloat (float_of_decimal 10 0))]
                    eq_refl eq_refl)). simpl. lia.
Defined.

End SegmentParser.

(** * Ratios and resolutions *)

Module Resolver.
Import PyStr PyNum YtShorts Spec PyStrFacts ShapeFacts.

(** C6, as the program has it.  When [ratio_from_string] returns a pair,
    its components are the values of two non-empty runs of digits: neither
    is below zero, and a component is above zero exactly when its run has a
    digit other than [0]. *)
Theorem ratio_components (s : string) (w h : Z) :
  ratio_from_string s = Ok (w, h) ->
  exists g1 g2,
    re_ratio s = Some (g1, g2) /\ digits g1 /\ digits g2 /\
    w = int_of_digits g1 /\ h = int_of_digits g2 /\
    0 <= w /\ 0 <= h /\
    (0 < w <-> all_zeros g1 = false) /\ (0 < h <-> all_zeros g2 = false).
Proof.
  unfold ratio_from_string.
  destruct (re_ratio s) as [[g1 g2]|] eqn:E; [|discriminate].
  destruct (int_of_str g1) as [w'|e1] eqn:E1; [|discriminate].
  destruct (int_of_str g2) as [h'|e2] eqn:E2; [|discriminate].
  apply int_of_str_ok in E1 as [-> _]. apply int_of_str_ok in E2 as [-> _].
  intros [= <- <-]. destruct (re_ratio_groups s g1 g2 E) as [H1 H2].
  destruct (int_of_digits_positive g1 (digits_all g1 H1)) as [P1 Q1].
  destruct (int_of_digits_positive g2 (digits_all g2 H2)) as [P2 Q2].
  exists g1, g2. split; [reflexivity|].
  split; [exact H1|]. split; [exact H2|].
  split; [reflexivity|]. split; [reflexivity|].
  split; [exact P1|]. split; [exact P2|]. split; [exact Q1 | exact Q2].
Qed.

Lemma ratio_components_witness :
  ratio_from_string "16 : 9" = Ok (16, 9) /\ 0 <= 16 /\ 0 <= 9.
Proof.
  destruct (ratio_components "16 : 9" 16 9 eq_refl)
    as (g1 & g2 & _ & _ & _ & _ & _ & Hw & Hh & _).
  split; [reflexivity | split; assumption].
Defined.

(** ["0:16"] is accepted, with a width of zero. *)
Lemma ratio_zero_accepted : ~ ratio_claim "0:16".
Proof.
  intros H. destruct (H 0 16 eq_refl) as [Hw _]. lia.
Qed.

Lemma ends_in_line_feed_app (t : string) :
  ends_in_line_feed (t ++ String LF EmptyString) = true.
Proof.
  induction t as [|c t IH]; [reflexivity|].
  cbn [append]. destruct t as [|c' t]; [exact IH|exact IH].
Qed.

(** Away from a final line feed, the pattern accepts the texts [WxH]. *)
Lemma re_resolution_exact (s : string) :
  ends_in_line_feed s = false ->
  match re_resolution s with
  | Some (g1, g2) => resolution_text s g1 g2
  | None => forall g1 g2, ~ resolution_text s g1 g2
  end.
Proof.
  intros Hs. destruct (re_resolution s) as [[g1 g2]|] eqn:E.
  - apply re_resolution_sound in E as (t & Ht & [->| ->]); [exact Ht|].
    rewrite ends_in_line_feed_app in Hs. discriminate Hs.
  - intros g1 g2 Ht.
    rewrite (re_resolution_complete s g1 g2 s Ht (or_introl eq_refl)) in E.
    discriminate E.
Qed.

Lemma resolution_text_groups (s g1 g2 h1 h2 : string) :
  resolution_text s g1 g2 -> resolution_text s h1 h2 -> h1 = g1 /\ h2 = g2.
Proof.
  intros Hg Hh.
  pose proof (re_resolution_complete s g1 g2 s Hg (or_introl eq_refl)) as E1.
  pose proof (re_resolution_complete s h1 h2 s Hh (or_introl eq_refl)) as E2.
  rewrite E1 in E2. injection E2 as <- <-. now split.
Qed.

(** C7, as the program has it.  Of a text that is present, not empty and
    does not end in a line feed: when it is [WxH], two non-empty runs of
    digits around an [x], the resolver returns the pair of the values of
    the runs, which may be zero, unless a run has more digits than [int]
    converts, which raises the error of the conversion; every other such
    text raises [InvalidResolution].  With no text, or with the empty text,
    which the test of the resolver takes for no text, the result is
    [(1080, 1920)] for the ratio [(9, 16)] and [(1920, 1080)] for every
    other ratio. *)
Theorem resolution_cases (arg : option string) (aspect : Z * Z) :
  (forall s, arg = Some s -> s <> EmptyString ->
     ends_in_line_feed s = false ->
     (forall g1 g2, resolution_text s g1 g2 ->
        (within_limit g1 -> within_limit g2 ->
         resolution_from_arg arg aspect
         = Ok (int_of_digits g1, int_of_digits g2) /\
         0 <= int_of_digits g1 /\ 0 <= int_of_digits g2) /\
        (~ (within_limit g1 /\ within_limit g2) ->
         resolution_from_arg arg aspect = Raise DigitLimitError)) /\
     ((forall g1 g2, ~ resolution_text s g1 g2) ->
      resolution_from_arg arg aspect = Raise InvalidResolution) /\
     (forall r, resolution_from_arg arg aspect = Ok r ->
        exists g1 g2, resolution_text s g1 g2 /\
                      r = (int_of_digits g1, int_of_digits g2))) /\
  (arg = None \/ arg = Some EmptyString ->
     (aspect = (9, 16) -> resolution_from_arg arg aspect = Ok (1080, 1920)) /\
     (aspect <> (9, 16) -> resolution_from_arg arg aspect = Ok (1920, 1080))).
Proof.
  split.
  - intros s -> Hne Hlf.
    assert (resolution_from_arg (Some s) aspect
            = match re_resolution s with
              | None => Raise InvalidResolution
              | Some (g1, g2) =>
                  w <- int_of_str g1 ;; h <- int_of_str g2 ;; Ok (w, h)
              end) as ->
      by (destruct s; [congruence | reflexivity]).
    pose proof (re_resolution_exact s Hlf) as Hre.
    destruct (re_resolution s) as [[h1 h2]|].
    + split; [|split].
      * intros g1 g2 Ht.
        destruct (resolution_text_groups s g1 g2 h1 h2 Ht Hre) as [-> ->].
        split.
        -- intros L1 L2.
           rewrite (int_of_str_within g1 L1), (int_of_str_within g2 L2).
           split; [reflexivity|]. destruct Ht as (H1 & H2 & _).
           split; apply int_of_digits_nonneg; now apply digits_all.
        -- intros Hno. destruct (within_limit_dec g1) as [L1|L1].
           ++ rewrite (int_of_str_within g1 L1). cbn [bind].
              rewrite (int_of_str_beyond g2); [reflexivity|]. tauto.
           ++ now rewrite (int_of_str_beyond g1 L1).
      * intros Hno. now destruct (Hno h1 h2).
      * intros r Hr. exists h1, h2. split; [exact Hre|].
        destruct (int_of_str h1) as [w|e] eqn:E1; [|discriminate].
        destruct (int_of_str h2) as [h|e] eqn:E2; [|discriminate].
        apply int_of_str_ok in E1 as [-> _].
        apply int_of_str_ok in E2 as [-> _]. now injection Hr as <-.
    + split; [|split].
      * intros g1 g2 Ht. now destruct (Hre g1 g2).
      * reflexivity.
      * discriminate.
  - intros Harg.
    assert (resolution_from_arg arg aspect =
            if (fst aspect =? 9) && (snd aspect =? 16)
            then Ok (1080, 1920) else Ok (1920, 1080)) as ->.
    { destruct aspect as [aw ah]. destruct Harg as [->| ->]; simpl;
        now destruct ((aw =? 9) && (ah =? 16)). }
    destruct aspect as [aw ah]. simpl. split.
    + intros [= -> ->]. reflexivity.
    + intros Hne. destruct (Z.eqb_spec aw 9) as [->|]; [|reflexivity].
      destruct (Z.eqb_spec ah 16) as [->|]; [|reflexivity]. congruence.
Qed.

Lemma resolution_cases_witness :
  resolution_from_arg (Some "1080x1920") (16, 9) = Ok (1080, 1920) /\
  resolution_from_arg (Some "1080*1920") (16, 9) = Raise InvalidResolution /\
  resolution_from_arg None (9, 16) = Ok (1080, 1920) /\
  resolution_from_arg None (16, 9) = Ok (1920, 1080) /\
  resolution_from_arg (Some "") (16, 9) = Ok (1920, 1080).
Proof.
  assert (within_limit "1080" /\ within_limit "1920") as [L1 L2]
    by (unfold within_limit, int_max_str_digits; simpl; lia).
  assert (resolution_text "1080x1920" "1080" "1920") as Ht
    by (unfold resolution_text, digits; simpl; repeat split; discriminate).
  assert (forall g1 g2, ~ resolution_text "1080*1920" g1 g2) as Hno.
  { intros g1 g2 Hg.
    pose proof (re_resolution_complete _ g1 g2 _ Hg (or_introl eq_refl)) as E.
    vm_compute in E. discriminate E. }
  split; [|split; [|split; [|split]]].
  - destruct (proj1 (resolution_cases (Some "1080x1920") (16, 9))
                "1080x1920" eq_refl ltac:(discriminate) eq_refl)
      as (H & _ & _).
    destruct (H "1080" "1920" Ht) as [Hok _].
    exact (proj1 (Hok L1 L2)).
  - destruct (proj1 (resolution_cases (Some "1080*1920") (16, 9))
                "1080*1920" eq_refl ltac:(discriminate) eq_refl)
      as (_ & H & _).
    exact (H Hno).
  - apply (proj2 (resolution_cases None (9, 16))); auto.
  - apply (proj2 (resolution_cases None (16, 9))); auto. discriminate.
  - apply (proj2 (resolution_cases (Some "") (16, 9))); auto. discriminate.
Defined.

(** ["0x5"] is accepted, with a width of zero; the empty text takes the
    default instead of failing; and a width of 4301 digits is refused by
    [int], not returned. *)
Lemma resolution_zero_accepted :
  ~ resolution_claim "0x5" (9, 16) /\
  ~ resolution_claim "" (9, 16) /\
  ~ resolution_claim (replicate 4301 "1" ++ "x5")%string (9, 16).
Proof.
  split; [|split].
  - intros [_ H].
    assert (resolution_from_arg (Some "0x5") (9, 16)
            = Raise InvalidResolution) as E; [|discriminate E].
    apply H. intros g1 g2 Ht [H1 _].
    pose proof (re_resolution_complete "0x5" g1 g2 "0x5" Ht
                  (or_introl eq_refl)) as E.
    vm_compute in E. injection E as <- <-. vm_compute in H1.
    discriminate H1.
  - intros [_ H].
    assert (resolution_from_arg (Some "") (9, 16) = Raise InvalidResolution)
      as E; [|discriminate E].
    apply H. intros g1 g2 (_ & _ & Ht). destruct g1; discriminate Ht.
  - intros [H _].
    assert (resolution_from_arg (Some (replicate 4301 "1" ++ "x5")%string)
              (9, 16)
            = Ok (int_of_digits (replicate 4301 "1"), int_of_digits "5"))
      as E.
    { apply H.
      - unfold resolution_text, digits.
        split; [split; [vm_compute; reflexivity | discriminate]|].
        split; [split; [reflexivity | discriminate] | reflexivity].
      - vm_compute. reflexivity.
      - reflexivity. }
    assert (resolution_from_arg (Some (replicate 4301 "1" ++ "x5")%string)
              (9, 16) = Raise DigitLimitError) as R
      by (vm_compute; reflexivity).
    rewrite R in E. discriminate E.
Qed.

End Resolver.

(** * The crop geometry *)

Module CropGeometry.
Import PyStr PyNum YtShorts Spec PyNumFacts.

Lemma crop_rect_unfold (w h trw trh : Z) (target current : float) :
  int_truediv trw trh = Ok target -> int_truediv w h = Ok current ->
  crop_rect (w, h) (trw, trh) =
  if near current target then Ok None
  else if wider current target then
    p <- int_mul_float h target ;;
    new_w <- int_of_float p ;;
    Ok (Some (Rect ((w - new_w) / 2) 0 ((w - new_w) / 2 + new_w) h))
  else
    q <- int_div_float w target ;;
    new_h <- int_of_float q ;;
    Ok (Some (Rect 0 ((h - new_h) / 2) w ((h - new_h) / 2 + new_h))).
Proof.
  intros Ht Hc. unfold crop_rect. rewrite Ht. cbn [bind]. rewrite Hc.
  reflexivity.
Qed.

(** [int] of a number that is not negative is its floor. *)
Lemma int_of_float_value (p : float) (z : Z) :
  is_nonneg p = true -> int_of_float p = Ok z ->
  exists q, float_value p = Some (Fin q) /\ z = Qfloor q.
Proof.
  destruct p as [s|s| |s m e]; simpl; try discriminate.
  - intros _ [= <-]. exists (0 # 1)%Q. split; reflexivity.
  - intros Hs [= <-]. apply negb_true_iff in Hs. subst.
    exists (finite_value false m e). split; [reflexivity|].
    apply truncate_floor.
Qed.

Lemma int_of_floor (p : float) (z : Z) :
  is_nonneg p = true -> floor p = Some z -> int_of_float p = Ok z.
Proof.
  intros Hp. unfold floor.
  destruct (float_value p) as [[|q|]|] eqn:E; try discriminate.
  intros [= <-]. now apply int_of_float_floor.
Qed.

Lemma floor_bounds (q : Q) :
  (inject_Z (Qfloor q) <= q)%Q /\ (q < inject_Z (Qfloor q + 1))%Q.
Proof. split; [apply Qfloor_le | apply Qlt_floor]. Qed.

(** C5.  With [target = trw / trh] and [current = w / h] as floats: when
    [|current - target| < 1e-6] the clip is returned as it is, the whole
    frame; when [current > target] the crop is [(x1, 0, x1 + new_w, h)] with
    [new_w = floor(h * target)] and [x1 = floor((w - new_w) / 2)]; otherwise
    it is [(0, y1, w, y1 + new_h)] with [new_h = floor(w / target)] and
    [y1 = floor((h - new_h) / 2)].  A source of 1920 by 1080 and the target
    9:16 give [new_w = 607], [x1 = 656], [x2 = 1263] and the full height. *)
Theorem crop_rect_cases (w h trw trh : Z) (target current : float) :
  0 < w -> 0 < h -> 0 < trw -> 0 < trh ->
  int_truediv trw trh = Ok target -> int_truediv w h = Ok current ->
  (near current target = true ->
     crop_rect (w, h) (trw, trh) = Ok None /\
     kept_region (w, h) None = Rect 0 0 w h) /\
  (near current target = false -> wider current target = true ->
     forall p new_w,
       int_mul_float h target = Ok p -> floor p = Some new_w ->
       let x1 := Qfloor ((w - new_w) # 2) in
       crop_rect (w, h) (trw, trh) = Ok (Some (Rect x1 0 (x1 + new_w) h))) /\
  (near current target = false -> wider current target = false ->
     forall q new_h,
       int_div_float w target = Ok q -> floor q = Some new_h ->
       let y1 := Qfloor ((h - new_h) # 2) in
       crop_rect (w, h) (trw, trh) = Ok (Some (Rect 0 y1 w (y1 + new_h)))) /\
  (exists p, int_mul_float 1080 (float_of_decimal 5625 4) = Ok p /\
             floor p = Some 607) /\
  crop_rect (1920, 1080) (9, 16) = Ok (Some (Rect 656 0 1263 1080)).
Proof.
  intros Hw Hh Htrw Htrh Ht Hc.
  pose proof (crop_rect_unfold w h trw trh target current Ht Hc) as E.
  destruct (int_truediv_nonneg trw trh target ltac:(lia) Htrh Ht) as [Tn Ti].
  split; [|split; [|split; [|split]]].
  - intros Hn. rewrite Hn in E. split; [exact E | reflexivity].
  - intros Hn Hwd p new_w Hp Hf. rewrite Hn, Hwd, Hp in E. cbn [bind] in E.
    assert (is_nonneg p = true) as Pn
      by (apply (int_mul_float_nonneg h target p); auto; lia).
    rewrite (int_of_floor p new_w Pn Hf) in E. exact E.
  - intros Hn Hwd q new_h Hq Hf. rewrite Hn, Hwd, Hq in E. cbn [bind] in E.
    assert (is_nonneg q = true) as Qn
      by (apply (int_div_float_nonneg w target q); auto; lia).
    rewrite (int_of_floor q new_h Qn Hf) in E. exact E.
  - eexists. split; vm_compute; reflexivity.
  - vm_compute. reflexivity.
Qed.

Lemma crop_rect_cases_witness :
  crop_rect (1080, 1920) (16, 9) = Ok (Some (Rect 0 656 1080 1263)) /\
  crop_rect (1080, 1920) (9, 16) = Ok None.
Proof.
  split.
  - apply (proj1 (proj2 (proj2
             (crop_rect_cases 1080 1920 16 9
                (SFdiv prec emax (exact_of_Z 16) (exact_of_Z 9))
                (SFdiv prec emax (exact_of_Z 1080) (exact_of_Z 1920))
                ltac:(lia) ltac:(lia) ltac:(lia) ltac:(lia)
                ltac:(vm_compute; reflexivity)
                ltac:(vm_compute; reflexivity))))
             ltac:(vm_compute; reflexivity) ltac:(vm_compute; reflexivity)
             (float_of_decimal 6075 1) 607);
      vm_compute; reflexivity.
  - apply (proj1 (crop_rect_cases 1080 1920 9 16
                    (SFdiv prec emax (exact_of_Z 9) (exact_of_Z 16))
                    (SFdiv prec emax (exact_of_Z 1080) (exact_of_Z 1920))
                    ltac:(lia) ltac:(lia) ltac:(lia) ltac:(lia)
                    ltac:(vm_compute; reflexivity)
                    ltac:(vm_compute; reflexivity))).
    vm_compute. reflexivity.
Defined.

(** C4, as the program has it.  A crop away from the target ratio keeps one
    side of the frame whole and truncates the other to whole pixels: either
    the height is [h] and the width is the floor of the float product
    [h * target], or the width is [w] and the height is the floor of the
    float quotient [w / target], with [target = trw / trh].  The ratio of the
    region is the target ratio up to that truncation, less than one pixel. *)
Theorem crop_ratio_truncated (w h trw trh : Z) (r : rect) :
  0 < w -> 0 < h -> 0 < trw -> 0 < trh ->
  crop_rect (w, h) (trw, trh) = Ok (Some r) ->
  exists target current,
    int_truediv trw trh = Ok target /\ int_truediv w h = Ok current /\
    near current target = false /\
    ((wider current target = true /\ y1 r = 0 /\ y2 r = h /\
      exists p q, int_mul_float h target = Ok p /\
                  float_value p = Some (Fin q) /\
                  (inject_Z (x2 r - x1 r) <= q)%Q /\
                  (q < inject_Z (x2 r - x1 r + 1))%Q) \/
     (wider current target = false /\ x1 r = 0 /\ x2 r = w /\
      exists p q, int_div_float w target = Ok p /\
                  float_value p = Some (Fin q) /\
                  (inject_Z (y2 r - y1 r) <= q)%Q /\
                  (q < inject_Z (y2 r - y1 r + 1))%Q)).
Proof.
  intros Hw Hh Htrw Htrh H.
  destruct (int_truediv trw trh) as [target|] eqn:Ht;
    [|unfold crop_rect in H; rewrite Ht in H; discriminate H].
  destruct (int_truediv w h) as [current|] eqn:Hc;
    [|unfold crop_rect in H; rewrite Ht in H; cbn [bind] in H;
      rewrite Hc in H; discriminate H].
  rewrite (crop_rect_unfold w h trw trh target current Ht Hc) in H.
  destruct (int_truediv_nonneg trw trh target ltac:(lia) Htrh Ht) as [Tn Ti].
  exists target, current. split; [reflexivity|]. split; [reflexivity|].
  fold (near current target) in H. fold (wider current target) in H.
  destruct (near current target); [discriminate H|]. split; [reflexivity|].
  destruct (wider current target).
  - left. destruct (int_mul_float h target) as [p|] eqn:Hp; [|discriminate H].
    cbn [bind] in H.
    destruct (int_of_float p) as [new_w|] eqn:Hi; [|discriminate H].
    cbn [bind] in H. injection H as <-. cbn [x1 x2 y1 y2].
    assert (is_nonneg p = true) as Pn
      by (apply (int_mul_float_nonneg h target p); auto; lia).
    destruct (int_of_float_value p new_w Pn Hi) as (q & Hq & ->).
    destruct (floor_bounds q) as [B1 B2].
    repeat split; auto. exists p, q.
    replace ((w - Qfloor q) / 2 + Qfloor q - (w - Qfloor q) / 2)
      with (Qfloor q) by lia.
    repeat split; auto.
  - right. destruct (int_div_float w target) as [p|] eqn:Hp; [|discriminate H].
    cbn [bind] in H.
    destruct (int_of_float p) as [new_h|] eqn:Hi; [|discriminate H].
    cbn [bind] in H. injection H as <-. cbn [x1 x2 y1 y2].
    assert (is_nonneg p = true) as Pn
      by (apply (int_div_float_nonneg w target p); auto; lia).
    destruct (int_of_float_value p new_h Pn Hi) as (q & Hq & ->).
    destruct (floor_bounds q) as [B1 B2].
    repeat split; auto. exists p, q.
    replace ((h - Qfloor q) / 2 + Qfloor q - (h - Qfloor q) / 2)
      with (Qfloor q) by lia.
    repeat split; auto.
Qed.

Lemma crop_ratio_truncated_witness :
  crop_rect (1920, 1080) (9, 16) = Ok (Some (Rect 656 0 1263 1080)) /\
  exists q, (inject_Z (1263 - 656) <= q)%Q /\ (q < inject_Z (1263 - 656 + 1))%Q.
Proof.
  assert (crop_rect (1920, 1080) (9, 16) = Ok (Some (Rect 656 0 1263 1080)))
    as E by (vm_compute; reflexivity).
  split; [exact E|].
  destruct (crop_ratio_truncated 1920 1080 9 16 (Rect 656 0 1263 1080)
              ltac:(lia) ltac:(lia) ltac:(lia) ltac:(lia) E)
    as (target & current & _ & _ & _ & [H|H]).
  - destruct H as (_ & _ & _ & p & q & _ & _ & B1 & B2). now exists q.
  - destruct H as (_ & _ & Hx & _). discriminate Hx.
Defined.

(** The crop of 1920 by 1080 to 9:16 is 607 by 1080, and 607 * 16 is not
    9 * 1080. *)
Lemma crop_ratio_not_exact : ~ exact_ratio_claim 1920 1080 9 16.
Proof.
  intros H.
  assert (ratios_apart 1920 1080 9 16) as Ha by (vm_compute; discriminate).
  specialize (H ltac:(lia) ltac:(lia) ltac:(lia) ltac:(lia) Ha
                (Some (Rect 656 0 1263 1080)) ltac:(vm_compute; reflexivity)).
  vm_compute in H. discriminate H.
Qed.

End CropGeometry.

(** * The segment processor *)

Module SegmentProcessor.
Import PyStr PyNum YtShorts Spec.

Section Artifacts.
Context {tk : MediaToolkit}.
Variables (base : Clip) (aspect resolution : Z * Z) (fps : Z)
          (output_dir : Path) (prefix : string).

Lemma names_from_length (i n : nat) :
  List.length (names_from output_dir prefix i n) = n.
Proof. unfold names_from. now rewrite length_map, length_seq. Qed.

Lemma names_from_nth (i n k : nat) :
  (k < n)%nat ->
  nth_error (names_from output_dir prefix i n) k
  = Some (joinpath output_dir
            (prefix ++ "_part" ++ str_of_nat (i + k) ++ ".mp4")%string).
Proof.
  intros H. unfold names_from.
  rewrite nth_error_map, nth_error_seq.
  destruct (Nat.ltb_spec k n); [reflexivity | lia].
Qed.

Lemma combine_names_fst (names : list Path) (videos : list Video) :
  List.length names = List.length videos ->
  map fst (combine names videos) = names.
Proof.
  revert videos. induction names as [|p names IH]; intros [|v videos];
    simpl; try discriminate; auto.
  intros [= H]. now rewrite IH.
Qed.

(** One turn of the loop writes one file and goes on. *)
Lemma segments_loop_step (i : nat) (seg : segment) (rest : list segment)
      (outputs : list Path) (v : Video) (w : world) :
  render base aspect resolution fps seg = Ok v ->
  let out := joinpath output_dir (part_name prefix i) in
  segments_loop base aspect resolution fps output_dir prefix
    i (seg :: rest) outputs w
  = segments_loop base aspect resolution fps output_dir prefix
      (S i) rest (outputs ++ [out])
      (World (written w ++ [(out, v)]) (open_clips w)).
Proof.
  intros H out. subst out. unfold render in H.
  cbn [segments_loop]. unfold seq_run, lift.
  destruct (prepare base aspect resolution seg) as [resized|]; [|discriminate].
  cbn [bind] in H. unfold write_videofile. now rewrite H.
Qed.

Lemma segments_loop_all (segments : list segment) (videos : list Video) :
  Forall2 (fun seg v => render base aspect resolution fps seg = Ok v)
          segments videos ->
  forall i outputs w,
    segments_loop base aspect resolution fps output_dir prefix
      i segments outputs w
    = (Ok (outputs ++ names_from output_dir prefix i (List.length segments)),
       World (written w
              ++ combine (names_from output_dir prefix i (List.length segments))
                         videos)
             (open_clips w)).
Proof.
  induction 1 as [|seg v segments videos Hv _ IH]; intros i outputs w.
  - simpl. unfold ret. rewrite !app_nil_r. now destruct w.
  - rewrite (segments_loop_step i seg segments outputs v w Hv), IH.
    cbn [List.length names_from List.seq map combine written open_clips].
    unfold part_name. now rewrite <- !app_assoc.
Qed.

(** C9.  When the source opens and every segment is cut, cropped, resized
    and encoded without a failure, [process_segments] writes one file per
    segment and nothing else, the file of the i-th segment (counted from 1,
    in the order of the list) under [{output_dir}/{prefix}_part{i}.mp4], and
    returns these paths in the order of the segments. *)
Theorem process_segments_artifacts (video_path : Path)
        (segments : list segment) (videos : list Video) (w : world) :
  video_file_clip video_path = Ok base ->
  Forall2 (fun seg v => render base aspect resolution fps seg = Ok v)
          segments videos ->
  let names := artifact_names output_dir prefix (List.length segments) in
  process_segments video_path segments aspect resolution fps output_dir prefix w
  = (Ok names, World (written w ++ combine names videos) (open_clips w)) /\
  List.length names = List.length segments /\
  map fst (combine names videos) = names /\
  forall k, (k < List.length segments)%nat ->
            nth_error names k
            = Some (joinpath output_dir
                      (prefix ++ "_part" ++ str_of_nat (S k) ++ ".mp4")%string).
Proof.
  intros Hopen Hall names. subst names. unfold artifact_names.
  split; [|split; [|split]].
  - unfold process_segments, seq_run, open_clip. rewrite Hopen.
    rewrite (segments_loop_all segments videos Hall). reflexivity.
  - apply names_from_length.
  - apply combine_names_fst. rewrite names_from_length.
    exact (Forall2_length Hall).
  - intros k Hk. now rewrite names_from_nth.
Qed.

End Artifacts.

Lemma process_segments_artifacts_witness :
  let segments := [(PInt 0, PInt 10); (PInt 20, PInt 30); (PInt 45, PInt 50)] in
  let names : list (@Path Demo.toolkit) :=
    ["output/clip_part1.mp4"; "output/clip_part2.mp4";
     "output/clip_part3.mp4"] in
  exists videos : list (@Video Demo.toolkit),
    process_segments (tk := Demo.toolkit) "source.mp4" segments
      (9, 16) (1080, 1920) 30 "output" "clip" (World [] 0)
    = (Ok names, World (combine names videos) 0)
    /\ List.length videos = 3%nat.
Proof.
  intros segments names.
  assert (exists videos : list (@Video Demo.toolkit),
            Forall2 (fun seg v =>
                       render (tk := Demo.toolkit)
                         (Demo.DemoClip (PInt 0, PInt 50) (1920, 1080))
                         (9, 16) (1080, 1920) 30 seg = Ok v) segments videos)
    as [videos Hall].
  { eexists. subst segments.
    repeat (eapply Forall2_cons; [vm_compute; reflexivity|]).
    apply Forall2_nil. }
  exists videos.
  destruct (process_segments_artifacts (tk := Demo.toolkit)
              (Demo.DemoClip (PInt 0, PInt 50) (1920, 1080))
              (9, 16) (1080, 1920) 30 "output" "clip" "source.mp4"
              segments videos (World [] 0) eq_refl Hall) as (H & _ & _ & _).
  split; [exact H|]. symmetry. exact (Forall2_length Hall).
Defined.

End SegmentProcessor.

(** * The sample runs of the specification *)

Module Samples.
Import PyStr PyNum YtShorts Spec.

Example clamp_not_drop :
  exists r, parse_segments "10-20,95-120" Demo.hundred = Ok r /\
            same_segments r [(10, 20); (95, 100)] = true.
Proof. eexists. split; vm_compute; reflexivity. Qed.

Example drop_at_duration :
  parse_segments "150-160" Demo.hundred = Ok [] /\
  parse_segments "100-160" Demo.hundred = Ok [].
Proof. split; vm_compute; reflexivity. Qed.

Example three_of_three :
  exists r, parse_segments "0-10,20-30,45-60" (PInt 50) = Ok r /\
            same_segments r [(0, 10); (20, 30); (45, 50)] = true.
Proof. eexists. split; vm_compute; reflexivity. Qed.

Example ratio_samples :
  ratio_from_string "9:16" = Ok (9, 16) /\
  ratio_from_string "16 : 9" = Ok (16, 9) /\
  ratio_from_string "abc" = Raise InvalidRatio.
Proof. repeat split. Qed.

Example resolution_samples :
  resolution_from_arg (Some "1080x1920") (16, 9) = Ok (1080, 1920) /\
  resolution_from_arg (Some "1080*1920") (16, 9) = Raise InvalidResolution.
Proof. repeat split. Qed.

Example crop_identity :
  crop_rect (1080, 1920) (9, 16) = Ok None /\
  kept_region (1080, 1920) None = Rect 0 0 1080 1920.
Proof. split; vm_compute; reflexivity. Qed.

(** A line feed inside a part reaches the time parser. *)
Example line_feed_in_part :
  exists r,
    parse_segments
      (String "1" (String "2" (String LF (String "-" (String "1" (String "5"
         EmptyString)))))) Demo.hundred = Ok r /\
    same_segments r [(12, 15)] = true.
Proof. eexists. split; vm_compute; reflexivity. Qed.

End Samples.

(** * The prefix of the artifacts *)

Module PrefixFacts.
Import PyStr Prefix PyStrFacts.

Lemma sub_spaces_from_length (s : string) (b : bool) :
  (String.length (sub_spaces_from b s) <= String.length s)%nat.
Proof.
  revert b. induction s as [|c s IH]; intros b; simpl; [lia|].
  pose proof (IH true) as Ht. pose proof (IH false) as Hf.
  destruct (is_space c); [destruct b|]; simpl; lia.
Qed.

Lemma sub_spaces_from_no_space (s : string) (b : bool) :
  no_space (sub_spaces_from b s) = true.
Proof.
  revert b. induction s as [|c s IH]; intros b; simpl; [reflexivity|].
  destruct (is_space c) eqn:E; [destruct b|]; simpl; rewrite ?E, ?IH; auto.
Qed.

Lemma sub_spaces_from_clean (s : string) (b : bool) :
  no_space s = true -> sub_spaces_from b s = s.
Proof.
  revert b. induction s as [|c s IH]; intros b; simpl; [reflexivity|].
  intros H. apply andb_prop in H as [Hc Hs]. apply negb_true_iff in Hc.
  now rewrite Hc, (IH false Hs).
Qed.

Lemma take_length (n : nat) (s : string) :
  (String.length (take n s) <= n)%nat /\
  (String.length (take n s) <= String.length s)%nat.
Proof.
  revert s. induction n as [|n IH]; intros [|c s]; simpl; try lia.
  destruct (IH s). lia.
Qed.

Lemma take_no_space (n : nat) (s : string) :
  no_space s = true -> no_space (take n s) = true.
Proof.
  revert s. induction n as [|n IH]; intros [|c s]; simpl; auto.
  intros H. apply andb_prop in H as [Hc Hs]. now rewrite Hc, (IH s Hs).
Qed.

Lemma take_all (n : nat) (s : string) :
  (String.length s <= n)%nat -> take n s = s.
Proof.
  revert s. induction n as [|n IH]; intros [|c s]; simpl; auto; try lia.
  intros H. rewrite IH; [reflexivity | lia].
Qed.

(** The prefix has at most 60 characters, is never longer than the stem and
    holds no white space. *)
Theorem infer_prefix_bounds (stem : string) :
  (String.length (infer_prefix stem) <= 60)%nat /\
  (String.length (infer_prefix stem) <= String.length stem)%nat /\
  no_space (infer_prefix stem) = true.
Proof.
  unfold infer_prefix, sub_spaces.
  destruct (take_length 60 (sub_spaces_from false stem)) as [H1 H2].
  pose proof (sub_spaces_from_length stem false) as H3.
  repeat split; try lia.
  apply take_no_space, sub_spaces_from_no_space.
Qed.

(** A stem without white space and of at most 60 characters is its own
    prefix, and a prefix is its own prefix. *)
Theorem infer_prefix_fixed (stem : string) :
  (no_space stem = true -> (String.length stem <= 60)%nat ->
   infer_prefix stem = stem) /\
  infer_prefix (infer_prefix stem) = infer_prefix stem.
Proof.
  assert (forall s, no_space s = true -> (String.length s <= 60)%nat ->
                    infer_prefix s = s) as H.
  { intros s Hs Hl. unfold infer_prefix, sub_spaces.
    rewrite (sub_spaces_from_clean s false Hs). now apply take_all. }
  split; [apply H|]. apply H.
  - unfold infer_prefix, sub_spaces.
    apply take_no_space, sub_spaces_from_no_space.
  - unfold infer_prefix.
    now destruct (take_length 60 (sub_spaces stem)) as [H1 _].
Qed.

Lemma infer_prefix_fixed_witness :
  infer_prefix "My_Video!!_" = "My_Video!!_".
Proof.
  apply (proj1 (infer_prefix_fixed "My_Video!!_")); [reflexivity | simpl; lia].
Defined.

Lemma sub_spaces_from_word (a r : string) :
  no_space a = true ->
  sub_spaces_from false (a ++ r) = (a ++ sub_spaces_from false r)%string.
Proof.
  induction a as [|c a IH]; simpl; [reflexivity|]. intros H.
  apply andb_prop in H as [Hc Ha]. apply negb_true_iff in Hc.
  now rewrite Hc, (IH Ha).
Qed.

Lemma sub_spaces_from_run (sp r : string) :
  all_space sp = true ->
  sub_spaces_from true (sp ++ r) = sub_spaces_from true r.
Proof.
  induction sp as [|c sp IH]; simpl; [reflexivity|]. intros H.
  apply andb_prop in H as [Hc Hs]. now rewrite Hc, (IH Hs).
Qed.

Lemma sub_spaces_from_after_run (r : string) :
  head_is_space r = false -> sub_spaces_from true r = sub_spaces_from false r.
Proof. destruct r as [|c r]; simpl; [reflexivity|]. now intros ->. Qed.

(** A run of white space between two words becomes one underscore,
    whatever the run is made of and however long it is. *)
Theorem sub_spaces_between (a sp b : string) :
  no_space a = true -> all_space sp = true -> sp <> EmptyString ->
  head_is_space b = false ->
  sub_spaces (a ++ sp ++ b) = (a ++ "_" ++ sub_spaces b)%string.
Proof.
  intros Ha Hs Hne Hb. unfold sub_spaces.
  rewrite (sub_spaces_from_word a _ Ha). f_equal.
  destruct sp as [|c sp]; [congruence|]. simpl in *.
  apply andb_prop in Hs as [Hc Hs]. rewrite Hc.
  now rewrite (sub_spaces_from_run sp b Hs), (sub_spaces_from_after_run b Hb).
Qed.

Lemma sub_spaces_between_witness :
  infer_prefix "My  Video!! " = "My_Video!!_" /\
  sub_spaces "My  Video!! " = ("My" ++ "_" ++ sub_spaces "Video!! ")%string.
Proof.
  split; [reflexivity|].
  apply (sub_spaces_between "My" "  " "Video!! "); try reflexivity.
  discriminate.
Defined.

End PrefixFacts.

(** * More on the parsers *)

Module ParserFacts.
Import PyStr PyNum YtShorts Spec Prefix.
Import PyStrFacts PyNumFacts ShapeFacts TimeParser SegmentParser.

(** *** Trimming *)

Lemma lstrip_head (s : string) : head_is_space (lstrip s) = false.
Proof.
  induction s as [|c s IH]; simpl; [reflexivity|].
  destruct (is_space c) eqn:E; [exact IH | simpl; exact E].
Qed.

Lemma lstrip_fixed (s : string) : head_is_space s = false -> lstrip s = s.
Proof. destruct s as [|c s]; simpl; [reflexivity|]. now intros ->. Qed.

Lemma rstrip_head (s : string) :
  head_is_space s = false -> head_is_space (rstrip s) = false.
Proof.
  destruct s as [|c s]; simpl; [reflexivity|]. intros H. rewrite H.
  now rewrite andb_false_r.
Qed.

Lemma rstrip_idempotent (s : string) : rstrip (rstrip s) = rstrip s.
Proof.
  induction s as [|c s IH]; simpl; [reflexivity|].
  destruct (is_empty (rstrip s) && is_space c) eqn:E; [reflexivity|].
  simpl. now rewrite IH, E.
Qed.

Lemma strip_idempotent (s : string) : strip (strip s) = strip s.
Proof.
  unfold strip.
  rewrite (lstrip_fixed (rstrip (lstrip s)) (rstrip_head _ (lstrip_head s))).
  apply rstrip_idempotent.
Qed.

Lemma contains_lstrip (c : ascii) (s : string) :
  contains c s = false -> contains c (lstrip s) = false.
Proof.
  induction s as [|a s IH]; simpl; [reflexivity|]. intros H.
  apply orb_false_elim in H as [Ha Hs].
  destruct (is_space a); [now apply IH | simpl; now rewrite Ha, Hs].
Qed.

Lemma contains_rstrip (c : ascii) (s : string) :
  contains c s = false -> contains c (rstrip s) = false.
Proof.
  induction s as [|a s IH]; simpl; [reflexivity|]. intros H.
  apply orb_false_elim in H as [Ha Hs].
  destruct (is_empty (rstrip s) && is_space a); [reflexivity|].
  simpl. now rewrite Ha, (IH Hs).
Qed.

(** Every part the loop sees is trimmed, not empty and free of commas. *)
Theorem spec_parts_trimmed (spec : string) :
  Forall (fun p => strip p = p /\ p <> EmptyString /\ contains "," p = false)
         (spec_parts spec).
Proof.
  apply Forall_forall. intros p Hp. unfold spec_parts in Hp.
  apply in_map_iff in Hp as (q & <- & Hq).
  apply filter_In in Hq as [Hq Hne].
  apply negb_true_iff, is_empty_false in Hne.
  split; [apply strip_idempotent|]. split; [exact Hne|].
  pose proof (split_pieces "," spec) as Hs. rewrite Forall_forall in Hs.
  unfold strip. now apply contains_rstrip, contains_lstrip, Hs.
Qed.

Lemma all_space_strip (p : string) : all_space p = true -> strip p = EmptyString.
Proof.
  intros H. unfold strip.
  assert (lstrip p = EmptyString) as ->; [|reflexivity].
  induction p as [|c p IH]; simpl in *; [reflexivity|].
  apply andb_prop in H as [Hc Hp]. rewrite Hc. now apply IH.
Qed.

Lemma blank_pieces (s : string) :
  blank_spec s = true -> Forall (fun p => all_space p = true) (split "," s).
Proof.
  induction s as [|c s IH]; simpl; [repeat constructor|]. intros H.
  apply andb_prop in H as [Hc Hs]. specialize (IH Hs).
  destruct (Ascii.eqb c ",") eqn:E; [constructor; [reflexivity | exact IH]|].
  rewrite orb_false_r in Hc.
  destruct (split "," s) as [|p l]; [repeat constructor; simpl; now rewrite Hc|].
  inversion IH; subst. constructor; [simpl; now rewrite Hc | assumption].
Qed.

(** A spec of commas and white space only, the empty spec among them,
    gives no segment and no failure, whatever the duration. *)
Theorem parse_segments_blank (spec : string) (d : number) :
  blank_spec spec = true ->
  spec_parts spec = [] /\ parse_segments spec d = Ok [].
Proof.
  intros H. assert (spec_parts spec = []) as E.
  { unfold spec_parts. pose proof (blank_pieces spec H) as Hp.
    induction (split "," spec) as [|p l IH]; [reflexivity|].
    inversion Hp; subst. simpl. rewrite (all_space_strip p) by assumption.
    simpl. now apply IH. }
  split; [exact E|]. unfold parse_segments. now rewrite E.
Qed.

Lemma parse_segments_blank_witness :
  parse_segments " , ,, " Demo.hundred = Ok [] /\
  parse_segments "" Demo.hundred = Ok [].
Proof.
  split.
  - apply (proj2 (parse_segments_blank " , ,, " Demo.hundred eq_refl)).
  - apply (proj2 (parse_segments_blank "" Demo.hundred eq_refl)).
Defined.

(** *** Acceptance *)

Lemma collect_segments_accepts (parts : list string) (d : number) :
  forall acc,
    (exists r, collect_segments parts d acc = Ok r) <->
    Forall (fun p => exists rg, range_of_part p = Ok rg) parts.
Proof.
  induction parts as [|p parts IH]; intros acc; simpl.
  - split; [constructor | eauto].
  - rewrite segment_of_part_range.
    destruct (range_of_part p) as [rg|e] eqn:E; simpl.
    + destruct (py_ge (fst rg) d); simpl; rewrite IH; split.
      * intros H. constructor; eauto.
      * intros H. now inversion H.
      * intros H. constructor; eauto.
      * intros H. now inversion H.
    + split.
      * intros [r Hr]. discriminate Hr.
      * intros H. inversion H as [|? ? [rg Hrg] _]; subst. congruence.
Qed.

(** The parser returns segments exactly when every part splits, parses and
    validates: one bad part fails the whole spec, also a part that the
    duration would have dropped, and the duration has no say in it. *)
Theorem parse_segments_accepts (spec : string) (d : number) :
  ((exists r, parse_segments spec d = Ok r) <->
   Forall (fun p => exists rg, range_of_part p = Ok rg) (spec_parts spec)) /\
  ((exists r, parse_segments spec d = Ok r) ->
   forall d', exists r', parse_segments spec d' = Ok r').
Proof.
  unfold parse_segments. split.
  - apply collect_segments_accepts.
  - intros H d'. apply collect_segments_accepts.
    now apply (collect_segments_accepts (spec_parts spec) d []).
Qed.

Lemma parse_segments_accepts_witness :
  (exists r', parse_segments "0-10,20-30" (PInt 5) = Ok r') /\
  parse_segments "0-10,300-200" Demo.hundred = Raise (InvalidSegment "300-200").
Proof.
  split; [|reflexivity].
  apply (proj2 (parse_segments_accepts "0-10,20-30" Demo.hundred)).
  eexists. vm_compute. reflexivity.
Defined.

(** *** Joining two specs *)

Lemma split_app (c : ascii) (a b : string) :
  split c (a ++ String c b) = split c a ++ split c b.
Proof.
  induction a as [|x a IH]; simpl.
  - now rewrite Ascii.eqb_refl.
  - rewrite IH. destruct (Ascii.eqb x c); [reflexivity|].
    pose proof (split_not_nil c a) as Hn.
    destruct (split c a) as [|p l]; [congruence | reflexivity].
Qed.

Lemma spec_parts_app (s1 s2 : string) :
  spec_parts (s1 ++ String "," s2) = spec_parts s1 ++ spec_parts s2.
Proof.
  unfold spec_parts. now rewrite split_app, filter_app, map_app.
Qed.

Lemma collect_segments_acc (parts : list string) (d : number) :
  forall acc,
    collect_segments parts d acc =
    (r <- collect_segments parts d [] ;; Ok (acc ++ r)).
Proof.
  induction parts as [|p parts IH]; intros acc; simpl.
  - now rewrite app_nil_r.
  - destruct (segment_of_part p d) as [[seg|]|e]; simpl; auto.
    rewrite (IH (acc ++ [seg])), (IH [seg]).
    destruct (collect_segments parts d []) as [r|e]; simpl; [|reflexivity].
    now rewrite <- app_assoc.
Qed.

(** Two specs joined by a comma give the segments of the first followed by
    the segments of the second, and the failure of the first that fails. *)
Theorem parse_segments_join (s1 s2 : string) (d : number) :
  parse_segments (s1 ++ "," ++ s2) d =
  (r1 <- parse_segments s1 d ;; r2 <- parse_segments s2 d ;; Ok (r1 ++ r2)).
Proof.
  unfold parse_segments. cbn [append].
  rewrite spec_parts_app, collect_segments_app.
  destruct (collect_segments (spec_parts s1) d []) as [r1|e]; simpl;
    [|reflexivity].
  apply collect_segments_acc.
Qed.

(** *** What the time parser can return *)

Lemma py_le_of_values (a b : number) (qa qb : Q) :
  value a = Some (Fin qa) -> value b = Some (Fin qb) -> (qa <= qb)%Q ->
  py_le a b = true.
Proof.
  intros Ha Hb H. unfold py_le, compare. rewrite Ha, Hb. cbn [xcompare].
  pose proof (proj1 (Qle_alt qa qb) H) as Hc.
  destruct (qa ?= qb)%Q; congruence.
Qed.

Lemma zero_le_nonneg_float (f : float) :
  is_nonneg f = true -> py_le (PInt 0) (PFloat f) = true.
Proof.
  destruct f as [s|s| |s m e]; simpl; try discriminate.
  - reflexivity.
  - intros H. apply negb_true_iff in H. now subst.
  - intros H. apply negb_true_iff in H. subst.
    apply (py_le_of_values _ _ (inject_Z 0) (finite_value false m e));
      try reflexivity.
    unfold finite_value, Qle.
    destruct e as [|q|q]; cbn [Qnum Qden inject_Z]; lia.
Qed.

Lemma zero_le_nonneg_int (z : Z) : 0 <= z -> py_le (PInt 0) (PInt z) = true.
Proof.
  intros H.
  apply (py_le_of_values _ _ (inject_Z 0) (inject_Z z)); try reflexivity.
  now rewrite <- Zle_Qle.
Qed.

Lemma py_le_not_lt (a b : number) : py_le a b = true -> py_lt b a = false.
Proof.
  unfold py_le, py_lt. rewrite (compare_antisym a b).
  destruct (compare a b) as [[]|]; simpl; congruence.
Qed.

Lemma digits_value_nonneg (g : string) : digits g -> 0 <= int_of_digits g.
Proof. intros [H _]. now apply int_of_digits_nonneg. Qed.

Lemma parse_time_zero_le (s : string) (v : number) :
  parse_time s = Ok v -> py_le (PInt 0) v = true.
Proof.
  destruct (re_plain s) eqn:E.
  - unfold parse_time. rewrite E.
    apply re_plain_sound in E as (t & dd & f & Hp & Hs).
    rewrite (py_float_plain t dd s f Hp Hs). intros [= <-].
    apply zero_le_nonneg_float, (plain_value_nonneg dd f t Hp).
  - destruct (re_hms s) as [[[g1 g2] g3]|] eqn:E2;
      [|unfold parse_time; rewrite E, E2; discriminate].
    intros Hv. destruct (parse_time_hms_ok s g1 g2 g3 v E E2 Hv) as [-> _].
    apply re_hms_sound in E2 as (t & (H1 & [H2 _] & H3) & _).
    apply zero_le_nonneg_int. unfold clock_value.
    pose proof (digits_value_nonneg g1 H1).
    pose proof (digits_value_nonneg g2 H2).
    destruct g3 as [g3|]; [destruct H3 as [[H3 _] _]|]; try lia.
    pose proof (digits_value_nonneg g3 H3). lia.
Qed.

(** The time parser never returns a NaN or a number below zero. *)
Theorem parse_time_nonneg (s : string) (v : number) :
  parse_time s = Ok v ->
  value v <> None /\ py_le (PInt 0) v = true /\ py_lt v (PInt 0) = false.
Proof.
  intros H. pose proof (parse_time_zero_le s v H) as H0.
  split; [exact (parse_time_defined s v H)|].
  split; [exact H0 | now apply py_le_not_lt].
Qed.

Lemma parse_time_nonneg_witness :
  py_le (PInt 0) (PInt 5445) = true /\ py_lt (PInt 5445) (PInt 0) = false.
Proof.
  destruct (parse_time_nonneg "1:30:45" (PInt 5445) eq_refl) as (_ & H1 & H2).
  split; assumption.
Defined.

(** The test [start < 0] of the loop never fires: a part is reported as an
    invalid segment only when its two halves parse and [end <= start]. *)
Theorem invalid_segment_is_backwards (part : string) (d : number) :
  segment_of_part part d = Raise (InvalidSegment part) ->
  exists a b start end_,
    split_part part = Ok (a, b) /\ parse_time a = Ok start /\
    parse_time b = Ok end_ /\ py_lt start (PInt 0) = false /\
    py_le end_ start = true.
Proof.
  unfold segment_of_part.
  destruct (split_part part) as [[a b]|e] eqn:Es; simpl;
    [|intros Hr; injection Hr as ->;
      destruct (split_part_raise_kind part _ Es); discriminate].
  destruct (parse_time a) as [start|e] eqn:Ea; simpl.
  - destruct (parse_time b) as [end_|e] eqn:Eb; simpl.
    + pose proof (py_le_not_lt _ _ (parse_time_zero_le a start Ea)) as Hs.
      rewrite Hs. simpl.
      destruct (py_le end_ start) eqn:El.
      * intros _. exists a, b, start, end_. auto.
      * destruct (py_ge start d); discriminate.
    + intros Hr. injection Hr as ->.
      destruct (parse_time_raise_kind b _ Eb) as [H|[H|H]]; discriminate.
  - intros Hr. injection Hr as ->.
    destruct (parse_time_raise_kind a _ Ea) as [H|[H|H]]; discriminate.
Qed.

Lemma invalid_segment_is_backwards_witness :
  exists a b start end_,
    split_part "10-5" = Ok (a, b) /\ parse_time a = Ok start /\
    parse_time b = Ok end_ /\ py_lt start (PInt 0) = false /\
    py_le end_ start = true.
Proof.
  exact (invalid_segment_is_backwards "10-5" Demo.hundred eq_refl).
Defined.

(** *** Minutes and seconds *)

Lemma two_digits_bound (g : string) :
  all_digits g = true -> (String.length g <= 2)%nat -> int_of_digits g <= 99.
Proof.
  destruct g as [|c1 [|c2 [|c3 g]]]; unfold int_of_digits;
    cbn [int_from all_digits String.length]; intros H L; try lia.
  - apply andb_prop in H as [H1 _].
    pose proof (digit_value_range c1 H1). lia.
  - apply andb_prop in H as [H1 H]. apply andb_prop in H as [H2 _].
    pose proof (digit_value_range c1 H1).
    pose proof (digit_value_range c2 H2). lia.
Qed.

(** The minutes and the seconds of a clock time are not held below 60:
    with hours that [int] converts, [h:60] is [h + 1] hours, [h:99:99] is
    accepted, and a clock time is worth between [h] hours and [h] hours and
    6039 seconds. *)
Theorem clock_fields_unchecked (g1 : string) :
  digits g1 -> within_limit g1 ->
  parse_time (g1 ++ ":60") = Ok (PInt (int_of_digits g1 * 3600 + 3600)) /\
  parse_time (g1 ++ ":99:99") = Ok (PInt (int_of_digits g1 * 3600 + 6039)) /\
  forall t g2 g3 s,
    clock_time t g1 g2 g3 -> with_line_feed t s ->
    exists v, parse_time s = Ok (PInt v) /\
              int_of_digits g1 * 3600 <= v <= int_of_digits g1 * 3600 + 6039.
Proof.
  intros H1 L1. split; [|split].
  - rewrite (parse_time_clock_within (g1 ++ ":60") g1 "60" (g1 ++ ":60")
               None).
    + unfold clock_value. cbn. do 2 f_equal. lia.
    + unfold clock_time, one_or_two, digits. simpl.
      repeat split; try discriminate; try apply H1; lia.
    + now left.
    + exact L1.
  - rewrite (parse_time_clock_within (g1 ++ ":99:99") g1 "99"
               (g1 ++ ":99:99") (Some "99")).
    + unfold clock_value. cbn. do 2 f_equal. lia.
    + unfold clock_time, one_or_two, digits. simpl.
      repeat split; try discriminate; try apply H1; lia.
    + now left.
    + exact L1.
  - intros t g2 g3 s Hc Hs. exists (clock_value g1 g2 g3).
    split; [exact (parse_time_clock_within t g1 g2 s g3 Hc Hs L1)|].
    destruct Hc as (_ & [[D2 _] L2] & H3). unfold clock_value.
    pose proof (int_of_digits_nonneg g2 D2).
    pose proof (two_digits_bound g2 D2 L2).
    destruct g3 as [g3|]; [|lia].
    destruct H3 as [[[D3 _] L3] _].
    pose proof (int_of_digits_nonneg g3 D3).
    pose proof (two_digits_bound g3 D3 L3). lia.
Qed.

Lemma clock_fields_unchecked_witness :
  parse_time "1:60" = Ok (PInt 7200) /\ parse_time "0:99:99" = Ok (PInt 6039).
Proof.
  assert (digits "1") as D1 by (split; [reflexivity | discriminate]).
  assert (digits "0") as D0 by (split; [reflexivity | discriminate]).
  assert (within_limit "1") as L1
    by (unfold within_limit, int_max_str_digits; simpl; lia).
  assert (within_limit "0") as L0
    by (unfold within_limit, int_max_str_digits; simpl; lia).
  destruct (clock_fields_unchecked "1" D1 L1) as (H1 & _ & _).
  destruct (clock_fields_unchecked "0" D0 L0) as (_ & H2 & _).
  split; [exact H1 | exact H2].
Defined.

(** *** The shape of a ratio *)

Lemma lstrip_run (sp r : string) :
  all_space sp = true -> lstrip (sp ++ r) = lstrip r.
Proof.
  induction sp as [|c sp IH]; simpl; [reflexivity|]. intros H.
  apply andb_prop in H as [Hc Hs]. rewrite Hc. auto.
Qed.

Lemma lstrip_cut (s : string) :
  exists sp, all_space sp = true /\ s = (sp ++ lstrip s)%string.
Proof.
  induction s as [|c s (sp & Hsp & IH)]; [now exists EmptyString|].
  simpl. destruct (is_space c) eqn:E.
  - exists (String c sp). simpl. rewrite E, Hsp. split; [reflexivity|].
    now rewrite <- IH.
  - now exists EmptyString.
Qed.

Lemma run_then_colon_head (sp r : string) :
  all_space sp = true -> head_is_digit (sp ++ String ":" r) = false.
Proof.
  destruct sp as [|c sp]; simpl; [reflexivity|]. intros H.
  apply andb_prop in H as [Hc _].
  destruct (is_digit c) eqn:E; [|reflexivity].
  rewrite (digit_not_space c E) in Hc. discriminate.
Qed.

Lemma digits_head (g r : string) :
  digits g -> head_is_space (g ++ r) = false.
Proof.
  intros [Hd Hne]. destruct g as [|c g]; [congruence|]. simpl in *.
  apply andb_prop in Hd as [Hc _]. now apply digit_not_space.
Qed.

Lemma re_ratio_complete (t g1 sp1 sp2 g2 s : string) :
  ratio_text t g1 sp1 sp2 g2 -> with_line_feed t s ->
  re_ratio s = Some (g1, g2).
Proof.
  intros (H1 & H2 & S1 & S2 & ->) Hs.
  apply line_feed_tail in Hs as (n & Hn & ->).
  destruct (tail_at_dollar n Hn) as [Hn1 Hn2]. unfold re_ratio.
  repeat (rewrite append_assoc; cbn [append]).
  rewrite (span_digits_complete g1 _ (digits_all g1 H1))
    by now apply run_then_colon_head.
  rewrite (digits_not_empty g1 H1), (lstrip_run sp1 _ S1).
  replace (lstrip (String ":" (sp2 ++ g2 ++ n)))
    with (String ":" (sp2 ++ g2 ++ n)) by reflexivity.
  cbn [expect]. rewrite Ascii.eqb_refl, (lstrip_run sp2 _ S2).
  rewrite (lstrip_fixed _ (digits_head g2 n H2)).
  rewrite (span_digits_complete g2 n (digits_all g2 H2) Hn2).
  now rewrite (digits_not_empty g2 H2), Hn1.
Qed.

Lemma re_ratio_sound (s g1 g2 : string) :
  re_ratio s = Some (g1, g2) ->
  exists t sp1 sp2, ratio_text t g1 sp1 sp2 g2 /\ with_line_feed t s.
Proof.
  unfold re_ratio. destruct (span_digits s) as [d r] eqn:E.
  apply span_digits_sound in E as (-> & Hd & Hr).
  destruct (is_empty d) eqn:Ed; [discriminate|].
  apply is_empty_false in Ed.
  destruct (lstrip_cut r) as (sp1 & S1 & Er).
  destruct (lstrip r) as [|c r1] eqn:El; [discriminate|]. cbn [expect].
  destruct (Ascii.eqb_spec c ":") as [->|]; [|discriminate].
  destruct (lstrip_cut r1) as (sp2 & S2 & Er1).
  destruct (span_digits (lstrip r1)) as [m r2] eqn:E2.
  apply span_digits_sound in E2 as (Em & Hm & _).
  destruct (negb (is_empty m) && at_dollar r2) eqn:E3; [|discriminate].
  apply andb_prop in E3 as [Hne E3].
  apply negb_true_iff, is_empty_false in Hne.
  intros [= <- <-].
  exists (d ++ sp1 ++ ":" ++ sp2 ++ m)%string, sp1, sp2.
  split; [now repeat split|].
  rewrite Er, Er1, Em.
  apply at_dollar_cases in E3 as [->| ->]; [left | right].
  - now rewrite append_nil_r.
  - now repeat (rewrite append_assoc; cbn [append]).
Qed.

(** [ratio_from_string] goes past its pattern exactly on the texts made of
    the digits of [W], any white space, a colon, any white space and the
    digits of [H], alone or followed by one line feed, which [$] lets
    through; it then returns [(W, H)], or raises the error of [int] when a
    run has more digits than is converted.  Every other text, a text with
    white space before [W] among them, raises [InvalidRatio]. *)
Theorem ratio_from_string_shape (s : string) :
  (forall t g1 sp1 sp2 g2,
     ratio_text t g1 sp1 sp2 g2 -> with_line_feed t s ->
     (within_limit g1 -> within_limit g2 ->
      ratio_from_string s = Ok (int_of_digits g1, int_of_digits g2)) /\
     (~ (within_limit g1 /\ within_limit g2) ->
      ratio_from_string s = Raise DigitLimitError)) /\
  ((forall t g1 sp1 sp2 g2,
      ratio_text t g1 sp1 sp2 g2 -> ~ with_line_feed t s) ->
   ratio_from_string s = Raise InvalidRatio) /\
  (head_is_space s = true -> ratio_from_string s = Raise InvalidRatio).
Proof.
  unfold ratio_from_string. split; [|split].
  - intros t g1 sp1 sp2 g2 Ht Hs.
    rewrite (re_ratio_complete t g1 sp1 sp2 g2 s Ht Hs). split.
    + intros L1 L2.
      now rewrite (int_of_str_within g1 L1), (int_of_str_within g2 L2).
    + intros Hno. destruct (within_limit_dec g1) as [L1|L1].
      * rewrite (int_of_str_within g1 L1). cbn [bind].
        rewrite (int_of_str_beyond g2); [reflexivity|]. tauto.
      * now rewrite (int_of_str_beyond g1 L1).
  - intros Hno. destruct (re_ratio s) as [[g1 g2]|] eqn:E; [|reflexivity].
    apply re_ratio_sound in E as (t & sp1 & sp2 & Ht & Hs).
    now destruct (Hno t g1 sp1 sp2 g2 Ht).
  - intros Hh. destruct s as [|c s]; [discriminate|]. simpl in Hh.
    unfold re_ratio. simpl.
    destruct (is_digit c) eqn:E; [|reflexivity].
    rewrite (digit_not_space c E) in Hh. discriminate.
Qed.

Lemma ratio_from_string_shape_witness :
  ratio_from_string "16 : 9" = Ok (16, 9) /\
  ratio_from_string " 9:16" = Raise InvalidRatio.
Proof.
  assert (ratio_text "16 : 9" "16" " " " " "9") as Ht
    by (unfold ratio_text, digits; simpl; repeat split; discriminate).
  assert (within_limit "16" /\ within_limit "9") as [L1 L2]
    by (unfold within_limit, int_max_str_digits; simpl; lia).
  split.
  - destruct (proj1 (ratio_from_string_shape "16 : 9")
                "16 : 9" "16" " " " " "9" Ht (or_introl eq_refl)) as [H _].
    exact (H L1 L2).
  - apply (proj2 (proj2 (ratio_from_string_shape " 9:16"))). reflexivity.
Defined.

End ParserFacts.

(** * More on the crop and on the processor *)

Module ProcessorFacts.
Import PyStr PyNum YtShorts Spec Prefix.
Import PyNumFacts CropGeometry SegmentProcessor.

Lemma truncate_nonneg (m : positive) (e : Z) : 0 <= truncate false m e.
Proof.
  unfold truncate. destruct e as [|e|e]; cbv beta iota zeta.
  - lia.
  - apply Z.mul_nonneg_nonneg; [lia|]. apply Z.pow_nonneg. lia.
  - apply Z.div_pos; [lia|]. apply Z.pow_pos_nonneg; lia.
Qed.

Lemma floor_nonneg (p : float) (q : Q) :
  is_nonneg p = true -> float_value p = Some (Fin q) -> 0 <= Qfloor q.
Proof.
  destruct p as [s|s| |s m e]; simpl; try discriminate.
  - intros _ [= <-]. discriminate.
  - destruct s; discriminate.
  - intros Hs [= <-]. apply negb_true_iff in Hs. subst.
    rewrite <- truncate_floor. apply truncate_nonneg.
Qed.

(** A crop keeps one side of the frame whole and is centred on the other:
    its extent is not negative, and the margin after it is the margin before
    it or one pixel more. *)
Theorem crop_centred (w h trw trh : Z) (r : rect) :
  0 < w -> 0 < h -> 0 < trw -> 0 < trh ->
  crop_rect (w, h) (trw, trh) = Ok (Some r) ->
  (y1 r = 0 /\ y2 r = h /\ 0 <= x2 r - x1 r /\
   0 <= (w - x2 r) - x1 r <= 1) \/
  (x1 r = 0 /\ x2 r = w /\ 0 <= y2 r - y1 r /\
   0 <= (h - y2 r) - y1 r <= 1).
Proof.
  intros Hw Hh Htrw Htrh H.
  destruct (int_truediv trw trh) as [target|] eqn:Ht;
    [|unfold crop_rect in H; rewrite Ht in H; discriminate H].
  destruct (int_truediv w h) as [current|] eqn:Hc;
    [|unfold crop_rect in H; rewrite Ht in H; cbn [bind] in H;
      rewrite Hc in H; discriminate H].
  rewrite (crop_rect_unfold w h trw trh target current Ht Hc) in H.
  destruct (int_truediv_nonneg trw trh target ltac:(lia) Htrh Ht) as [Tn Ti].
  destruct (near current target); [discriminate H|].
  destruct (wider current target).
  - left. destruct (int_mul_float h target) as [p|] eqn:Hp; [|discriminate H].
    cbn [bind] in H.
    destruct (int_of_float p) as [new_w|] eqn:Hi; [|discriminate H].
    cbn [bind] in H. injection H as <-. cbn [x1 x2 y1 y2].
    assert (is_nonneg p = true) as Pn
      by (apply (int_mul_float_nonneg h target p); auto; lia).
    destruct (int_of_float_value p new_w Pn Hi) as (q & Hq & ->).
    pose proof (floor_nonneg p q Pn Hq) as Hf.
    pose proof (Z.div_mod (w - Qfloor q) 2 ltac:(lia)).
    pose proof (Z.mod_pos_bound (w - Qfloor q) 2 ltac:(lia)).
    repeat split; lia.
  - right. destruct (int_div_float w target) as [p|] eqn:Hp; [|discriminate H].
    cbn [bind] in H.
    destruct (int_of_float p) as [new_h|] eqn:Hi; [|discriminate H].
    cbn [bind] in H. injection H as <-. cbn [x1 x2 y1 y2].
    assert (is_nonneg p = true) as Pn
      by (apply (int_div_float_nonneg w target p); auto; lia).
    destruct (int_of_float_value p new_h Pn Hi) as (q & Hq & ->).
    pose proof (floor_nonneg p q Pn Hq) as Hf.
    pose proof (Z.div_mod (h - Qfloor q) 2 ltac:(lia)).
    pose proof (Z.mod_pos_bound (h - Qfloor q) 2 ltac:(lia)).
    repeat split; lia.
Qed.

Lemma crop_centred_witness :
  crop_rect (1920, 1080) (9, 16) = Ok (Some (Rect 656 0 1263 1080)) /\
  0 <= (1920 - 1263) - 656 <= 1.
Proof.
  assert (crop_rect (1920, 1080) (9, 16) = Ok (Some (Rect 656 0 1263 1080)))
    as E by (vm_compute; reflexivity).
  split; [exact E|].
  destruct (crop_centred 1920 1080 9 16 (Rect 656 0 1263 1080)
              ltac:(lia) ltac:(lia) ltac:(lia) ltac:(lia) E) as [H|H].
  - destruct H as (_ & _ & _ & H). exact H.
  - destruct H as (_ & Hx & _). discriminate Hx.
Defined.

Section Failures.
Context {tk : MediaToolkit}.
Variables (aspect resolution : Z * Z) (fps : Z)
          (output_dir : Path) (prefix : string).

Lemma world_eta (w : world) : World (written w ++ []) (open_clips w) = w.
Proof. destruct w. simpl. now rewrite app_nil_r. Qed.

(** A turn of the loop that fails leaves the world as it found it. *)
Lemma segments_loop_raise (base : Clip) (i : nat) (seg : segment) (rest : list segment)
      (outputs : list Path) (e : exn) (w : world) :
  render base aspect resolution fps seg = Raise e ->
  segments_loop base aspect resolution fps output_dir prefix
    i (seg :: rest) outputs w = (Raise e, w).
Proof.
  unfold render. intros H. cbn [segments_loop]. unfold seq_run, lift.
  destruct (prepare base aspect resolution seg) as [resized|e'];
    cbn [bind] in H.
  - unfold write_videofile. now rewrite H.
  - now injection H as ->.
Qed.

Lemma segments_loop_stops (base : Clip) (done : list segment) (videos : list Video)
      (seg : segment) (rest : list segment) (e : exn) :
  Forall2 (fun sg v => render base aspect resolution fps sg = Ok v)
          done videos ->
  render base aspect resolution fps seg = Raise e ->
  forall i outputs w,
    segments_loop base aspect resolution fps output_dir prefix
      i (done ++ seg :: rest) outputs w
    = (Raise e,
       World (written w
              ++ combine (names_from output_dir prefix i (List.length done))
                         videos)
             (open_clips w)).
Proof.
  intros Hd He. induction Hd as [|sg v done videos Hv _ IH];
    intros i outputs w.
  - cbn [app List.length names_from List.seq map combine].
    rewrite (segments_loop_raise base i seg rest outputs e w He).
    now rewrite world_eta.
  - cbn [app].
    rewrite (segments_loop_step base aspect resolution fps output_dir prefix
               i sg (done ++ seg :: rest) outputs v w Hv), IH.
    cbn [List.length names_from List.seq map combine written open_clips].
    unfold part_name. now rewrite <- !app_assoc.
Qed.

(** When a segment fails after others went through, [process_segments]
    raises that failure at once: the files of the segments before it stay
    written, the segments after it are not touched, and the source clip is
    left open. *)
Theorem process_segments_stops (base : Clip) (video_path : Path)
        (done : list segment)
        (videos : list Video) (seg : segment) (rest : list segment)
        (e : exn) (w : world) :
  video_file_clip video_path = Ok base ->
  Forall2 (fun sg v => render base aspect resolution fps sg = Ok v)
          done videos ->
  render base aspect resolution fps seg = Raise e ->
  process_segments video_path (done ++ seg :: rest) aspect resolution fps
    output_dir prefix w
  = (Raise e,
     World (written w
            ++ combine (artifact_names output_dir prefix (List.length done))
                       videos)
           (S (open_clips w))).
Proof.
  intros Hopen Hd He. unfold process_segments, seq_run, open_clip.
  rewrite Hopen.
  now rewrite (segments_loop_stops base done videos seg rest e Hd He).
Qed.

(** Whatever the toolkit does, a run only adds files, and only under the
    names of the first [k] parts, for some [k]; it returns paths only when
    [k] is the number of segments, and then these are the names of all the
    parts and the source clip is closed again. *)
Lemma segments_loop_appends (base : Clip) (segments : list segment) :
  forall i outputs w,
  exists k videos,
    (k <= List.length segments)%nat /\ List.length videos = k /\
    written (snd (segments_loop base aspect resolution fps output_dir prefix
                    i segments outputs w))
    = written w ++ combine (names_from output_dir prefix i k) videos /\
    open_clips (snd (segments_loop base aspect resolution fps output_dir
                       prefix i segments outputs w))
    = open_clips w /\
    match fst (segments_loop base aspect resolution fps output_dir prefix
                 i segments outputs w) with
    | Ok outs => k = List.length segments /\
                 outs = outputs ++ names_from output_dir prefix i k
    | Raise _ => (k < List.length segments)%nat
    end.
Proof.
  induction segments as [|seg rest IH]; intros i outputs w.
  - exists O, []. simpl. rewrite !app_nil_r. repeat split; auto.
  - destruct (render base aspect resolution fps seg) as [v|e] eqn:E.
    + rewrite (segments_loop_step base aspect resolution fps output_dir
                 prefix i seg rest outputs v w E).
      destruct (IH (S i) (outputs ++ [joinpath output_dir (part_name prefix i)])
                  (World (written w
                          ++ [(joinpath output_dir (part_name prefix i), v)])
                         (open_clips w)))
        as (k & videos & Hk & Hl & Hw & Ho & Hr).
      exists (S k), (v :: videos).
      split; [simpl; lia|]. split; [simpl; lia|].
      split; [rewrite Hw; cbn [names_from List.seq map combine written];
              unfold part_name; now rewrite <- app_assoc|].
      split; [exact Ho|].
      destruct (fst (segments_loop base aspect resolution fps output_dir
                       prefix (S i) rest _ _)) as [outs|e].
      * destruct Hr as [-> ->]. split; [reflexivity|].
        cbn [names_from List.seq map]. unfold part_name.
        now rewrite <- app_assoc.
      * simpl. lia.
    + rewrite (segments_loop_raise base i seg rest outputs e w E).
      exists O, []. simpl. rewrite app_nil_r. repeat split; auto; lia.
Qed.

(** Whether it returns or raises, [process_segments] only adds to what is
    written: the files of the first [k] segments, under their numbered
    names and in order.  When it returns, [k] is the number of segments,
    the names are what it returns and the source clip is closed again;
    when it raises, no clip that was open is closed. *)
Theorem process_segments_appends (video_path : Path)
        (segments : list segment) (w : world) :
  let run := process_segments video_path segments aspect resolution fps
               output_dir prefix w in
  exists k videos,
    (k <= List.length segments)%nat /\ List.length videos = k /\
    written (snd run)
    = written w ++ combine (artifact_names output_dir prefix k) videos /\
    match fst run with
    | Ok outs => k = List.length segments /\
                 outs = artifact_names output_dir prefix k /\
                 open_clips (snd run) = open_clips w
    | Raise _ => (open_clips w <= open_clips (snd run))%nat
    end.
Proof.
  intros run. subst run. unfold process_segments, seq_run, open_clip.
  destruct (video_file_clip video_path) as [b|e].
  - destruct (segments_loop_appends b segments 1 []
                (World (written w) (S (open_clips w))))
      as (k & videos & Hk & Hl & Hw & Ho & Hr).
    destruct (segments_loop b aspect resolution fps output_dir prefix
                1 segments [] (World (written w) (S (open_clips w))))
      as [[outs|e] w'].
    + cbn [fst snd written open_clips] in *. destruct Hr as [Hn Hout].
      exists k, videos. unfold close_clip, ret. cbn [fst snd written open_clips].
      split; [exact Hk|]. split; [exact Hl|]. split; [exact Hw|].
      split; [exact Hn|]. split; [exact Hout|]. rewrite Ho. reflexivity.
    + cbn [fst snd written open_clips] in *.
      exists k, videos.
      split; [exact Hk|]. split; [exact Hl|]. split; [exact Hw|].
      rewrite Ho. lia.
  - exists O, []. cbn [fst snd]. unfold artifact_names.
    cbn [names_from List.seq map combine List.length].
    rewrite app_nil_r. repeat split; auto. lia.
Qed.

End Failures.

Lemma process_segments_stops_witness :
  let base := Demo.DemoClip (PInt 0, PInt 50) (1920, 1080) in
  let names : list (@Path strict_toolkit) := ["output/clip_part1.mp4"] in
  exists videos : list (@Video strict_toolkit),
    List.length videos = 1%nat /\
    process_segments (tk := strict_toolkit) "source.mp4"
      [(PInt 0, PInt 10); (PInt 45, PInt 60); (PInt 20, PInt 30)]
      (9, 16) (1080, 1920) 30 "output" "clip" (World [] 0)
    = (Raise (ToolkitError "subclip"), World (combine names videos) 1).
Proof.
  intros base names.
  assert (exists videos : list (@Video strict_toolkit),
            Forall2 (fun sg v =>
                       render (tk := strict_toolkit) base
                         (9, 16) (1080, 1920) 30 sg = Ok v)
                    [(PInt 0, PInt 10)] videos) as [videos Hd].
  { eexists. eapply Forall2_cons; [vm_compute; reflexivity|].
    apply Forall2_nil. }
  exists videos. split; [symmetry; exact (Forall2_length Hd)|].
  exact (process_segments_stops (tk := strict_toolkit)
           (9, 16) (1080, 1920) 30 "output" "clip" base "source.mp4"
           [(PInt 0, PInt 10)] videos (PInt 45, PInt 60) [(PInt 20, PInt 30)]
           (ToolkitError "subclip") (World [] 0) eq_refl Hd eq_refl).
Defined.

Section ZeroHeight.
Context {tk : MediaToolkit}.

(** A ratio with a height of zero goes through [ratio_from_string]; the
    crop then divides by it: with such an aspect the first segment raises
    [ZeroDivisionError] as soon as its subclip is cut, nothing is written
    and the source clip is left open. *)
Theorem zero_height_aspect (s : string) (trw : Z) (video_path : Path)
        (base sub : Clip) (seg : segment) (rest : list segment)
        (resolution : Z * Z) (fps : Z) (output_dir : Path) (prefix : string)
        (w : world) :
  ratio_from_string s = Ok (trw, 0) ->
  video_file_clip video_path = Ok base ->
  subclip base (fst seg) (snd seg) = Ok sub ->
  (forall size, crop_rect size (trw, 0) = Raise ZeroDivisionError) /\
  process_segments video_path (seg :: rest) (trw, 0) resolution fps
    output_dir prefix w
  = (Raise ZeroDivisionError, World (written w) (S (open_clips w))).
Proof.
  intros _ Hopen Hsub.
  assert (forall size, crop_rect size (trw, 0) = Raise ZeroDivisionError) as Hc
    by (intros [cw ch]; reflexivity).
  split; [exact Hc|].
  unfold process_segments, seq_run, open_clip. rewrite Hopen.
  rewrite (segments_loop_raise (trw, 0) resolution fps output_dir prefix
             base 1 seg rest [] ZeroDivisionError).
  - reflexivity.
  - unfold render, prepare. rewrite Hsub. cbn [bind].
    unfold crop_to_ratio. now rewrite Hc.
Qed.

End ZeroHeight.

Lemma zero_height_aspect_witness :
  ratio_from_string "9:0" = Ok (9, 0) /\
  process_segments (tk := Demo.toolkit) "source.mp4" [(PInt 0, PInt 10)]
    (9, 0) (1080, 1920) 30 "output" "clip" (World [] 0)
  = (Raise ZeroDivisionError, World [] 1).
Proof.
  split; [reflexivity|].
  exact (proj2 (zero_height_aspect (tk := Demo.toolkit) "9:0" 9 "source.mp4"
                  (Demo.DemoClip (PInt 0, PInt 50) (1920, 1080))
                  (Demo.DemoClip (PInt 0, PInt 10) (1920, 1080))
                  (PInt 0, PInt 10) [] (1080, 1920) 30 "output" "clip"
                  (World [] 0) eq_refl eq_refl eq_refl)).
Defined.

End ProcessorFacts.

(** * The front ends *)

Module FrontEndFacts.
Import PyStr PyNum YtShorts Spec Prefix FrontEnds SegmentProcessor.

Section Pipeline.
Context {tk : MediaToolkit} {host : Host}.

Notation "x <~~ c ;; k" := (then_act c (fun x => k))
  (at level 61, c at next level, right associativity).

Lemma then_ok {A B : Type} (c : act A) (k : A -> act B) (s s' : session)
      (a : A) :
  c s = (Ok a, s') -> then_act c k s = k a s'.
Proof. intros H. unfold then_act. now rewrite H. Qed.

Lemma then_raise {A B : Type} (c : act A) (k : A -> act B) (s s' : session)
      (e : exn) :
  c s = (Raise e, s') -> then_act c k s = (Raise e, s').
Proof. intros H. unfold then_act. now rewrite H. Qed.

Lemma world_same (w : world) : World (written w) (open_clips w) = w.
Proof. now destruct w. Qed.

Lemma session_same (s : session) :
  Session (media s) (fetched s) (made s) (moved s) (removed s) (shown s) = s.
Proof. now destruct s. Qed.

Lemma download_video_ok (url : string) (dir p : Path) (s : session) :
  ydl_fetch url dir = Ok p ->
  download_video url dir s
  = (Ok (chosen_file p),
     Session (media s) (fetched s ++ [url]) (made s) (moved s) (removed s)
             (shown s)).
Proof.
  intros H. unfold download_video, chosen_file. rewrite H.
  destruct (path_exists p); [reflexivity|].
  now destruct (path_exists (with_suffix_mp4 p)).
Qed.

(** Reading the duration opens the source and closes it again. *)
Lemma probe_duration_ok (video_path : Path) (clip : Clip) (s : session) :
  video_file_clip video_path = Ok clip ->
  probe_duration video_path s = (Ok (clip_duration clip), s).
Proof.
  intros H. unfold probe_duration, on_media, seq_run, open_clip, close_clip,
              ret.
  rewrite H. cbn [written open_clips Nat.pred].
  now rewrite world_same, session_same.
Qed.

Lemma say_paths_all (l : list Path) (s : session) :
  say_paths l s = (Ok tt, say_in s (map ShowPath l)).
Proof.
  revert s. induction l as [|p l IH]; intros s; simpl.
  - unfold done, say_in. now rewrite app_nil_r, session_same.
  - unfold then_act, say. rewrite IH. unfold say_in. simpl.
    now rewrite <- app_assoc.
Qed.

(** [download_video] returns the prepared name or its [.mp4] sibling, the
    prepared name first; what it returns is missing from the disk only
    when both are, and it is then the prepared name.  A failure of the
    downloader is raised as it is, with nothing recorded. *)
Theorem download_video_choice (url : string) (dir : Path) (s : session) :
  (forall e, ydl_fetch url dir = Raise e ->
             download_video url dir s = (Raise e, s)) /\
  (forall p, ydl_fetch url dir = Ok p ->
     exists q,
       download_video url dir s
       = (Ok q, Session (media s) (fetched s ++ [url]) (made s) (moved s)
                        (removed s) (shown s)) /\
       (q = p \/ q = with_suffix_mp4 p) /\
       (path_exists p = true -> q = p) /\
       (path_exists q = false ->
        q = p /\ path_exists (with_suffix_mp4 p) = false)).
Proof.
  split.
  - intros e H. unfold download_video. now rewrite H.
  - intros p H. unfold download_video. rewrite H.
    destruct (path_exists p) eqn:Ep.
    + exists p. split; [reflexivity|]. split; [now left|].
      split; [reflexivity|]. intros Hq. congruence.
    + destruct (path_exists (with_suffix_mp4 p)) eqn:Em.
      * exists (with_suffix_mp4 p). split; [reflexivity|].
        split; [now right|]. split; [discriminate|]. intros Hq. congruence.
      * exists p. split; [reflexivity|]. split; [now left|].
        split; [discriminate|]. intros _. split; reflexivity.
Qed.

(** [main] once the aspect is read, the directory made, the source fetched
    and its duration read. *)
Lemma main_prelude (args : arguments) (typed : string) (tmp p : Path)
      (aspect : Z * Z) (clip : Clip) (s : session) :
  ratio_from_string (arg_aspect args) = Ok aspect ->
  mkdir (path_of (arg_output args)) = Ok tt ->
  ydl_fetch (arg_url args) tmp = Ok p ->
  video_file_clip (chosen_file p) = Ok clip ->
  main args typed tmp s
  = with_temporary tmp
      (segments <~~ check (parse_segments (spec_of args typed)
                             (clip_duration clip)) ;;
       match segments with
       | [] => _ <~~ say NoValidSegments ;; done (Exit 1)
       | _ :: _ =>
           resolution <~~ check (resolution_from_arg (arg_resolution args)
                                   aspect) ;;
           outputs <~~ on_media
                         (process_segments (chosen_file p) segments aspect
                            resolution (arg_fps args)
                            (path_of (arg_output args))
                            (infer_prefix (path_stem (chosen_file p)))) ;;
           _ <~~ (if arg_keep args
                  then rename_quietly (chosen_file p)
                         (joinpath (path_of (arg_output args))
                            (infer_prefix (path_stem (chosen_file p))
                             ++ "_source.mp4")%string)
                  else done tt) ;;
           _ <~~ say Created ;;
           _ <~~ say_paths outputs ;;
           done Finished
       end)
      (say_in (fetched_session s [path_of (arg_output args)] (arg_url args))
              (prompts args (clip_duration clip))).
Proof.
  intros Hasp Hdir Hfetch Hopen. unfold main.
  erewrite then_ok by (unfold check; rewrite Hasp; reflexivity).
  cbv zeta.
  erewrite then_ok by (unfold make_dir; rewrite Hdir; reflexivity).
  unfold with_temporary.
  erewrite then_ok by (apply download_video_ok; exact Hfetch).
  erewrite then_ok by (apply probe_duration_ok; exact Hopen).
  unfold spec_of, prompts, say_in, fetched_session.
  destruct (missing (arg_segments args)).
  - unfold then_act at 1, then_act at 1, then_act at 1, say, done.
    cbn [media fetched made moved removed shown].
    rewrite <- app_assoc. reflexivity.
  - unfold then_act at 1, done.
    cbn [media fetched made moved removed shown].
    rewrite app_nil_r. reflexivity.
Qed.

Lemma with_temporary_result {A : Type} (tmp : Path) (body : act A)
      (s s' : session) (r : result A) :
  body s = (r, s') -> with_temporary tmp body s = (r, remove_in s' tmp).
Proof. intros H. unfold with_temporary. now rewrite H. Qed.

(** [main] looks at the aspect before anything else, and at the segments
    and the resolution only once the source is fetched: a bad aspect leaves
    the session as it was; a bad spec, or a bad resolution behind a good
    spec, is raised after the download, with nothing written and the
    temporary directory removed; and a bad spec hides a bad resolution. *)
Theorem main_checks_late (args : arguments) (typed : string) (tmp : Path)
        (s : session) :
  (forall e, ratio_from_string (arg_aspect args) = Raise e ->
             main args typed tmp s = (Raise e, s)) /\
  (forall aspect p clip,
     ratio_from_string (arg_aspect args) = Ok aspect ->
     mkdir (path_of (arg_output args)) = Ok tt ->
     ydl_fetch (arg_url args) tmp = Ok p ->
     video_file_clip (chosen_file p) = Ok clip ->
     let after :=
       remove_in
         (say_in (fetched_session s [path_of (arg_output args)] (arg_url args))
                 (prompts args (clip_duration clip))) tmp in
     (forall e,
        parse_segments (spec_of args typed) (clip_duration clip) = Raise e ->
        main args typed tmp s = (Raise e, after)) /\
     (forall seg rest e,
        parse_segments (spec_of args typed) (clip_duration clip)
        = Ok (seg :: rest) ->
        resolution_from_arg (arg_resolution args) aspect = Raise e ->
        main args typed tmp s = (Raise e, after)) /\
     written (media after) = written (media s) /\
     fetched after = fetched s ++ [arg_url args]).
Proof.
  split.
  - intros e H. unfold main.
    apply then_raise. unfold check. now rewrite H.
  - intros aspect p clip Hasp Hdir Hfetch Hopen after. subst after.
    rewrite (main_prelude args typed tmp p aspect clip s Hasp Hdir Hfetch Hopen).
    split; [|split; [|split; reflexivity]].
    + intros e H. apply with_temporary_result.
      apply then_raise. unfold check. now rewrite H.
    + intros seg rest e H Hres. apply with_temporary_result.
      erewrite then_ok by (unfold check; rewrite H; reflexivity).
      apply then_raise. unfold check. now rewrite Hres.
Qed.

(** When no segment survives, [main] prints its notice and ends with
    status 1: nothing is written, the temporary directory is removed, and
    the resolution is not looked at. *)
Theorem main_without_segments (args : arguments) (typed : string)
        (tmp p : Path) (aspect : Z * Z) (clip : Clip) (s : session) :
  ratio_from_string (arg_aspect args) = Ok aspect ->
  mkdir (path_of (arg_output args)) = Ok tt ->
  ydl_fetch (arg_url args) tmp = Ok p ->
  video_file_clip (chosen_file p) = Ok clip ->
  parse_segments (spec_of args typed) (clip_duration clip) = Ok [] ->
  let after :=
    remove_in
      (say_in (fetched_session s [path_of (arg_output args)] (arg_url args))
              (prompts args (clip_duration clip) ++ [NoValidSegments])) tmp in
  main args typed tmp s = (Ok (Exit 1), after) /\
  media after = media s.
Proof.
  intros Hasp Hdir Hfetch Hopen Hparse after. subst after.
  rewrite (main_prelude args typed tmp p aspect clip s Hasp Hdir Hfetch Hopen).
  split; [|reflexivity].
  erewrite with_temporary_result.
  2:{ erewrite then_ok by (unfold check; rewrite Hparse; reflexivity).
      unfold then_act, say, done. reflexivity. }
  unfold remove_in, say_in. cbn [media fetched made moved removed shown].
  now rewrite <- app_assoc.
Qed.

Lemma process_segments_ok (video_path : Path) (base : Clip)
      (segments : list segment) (videos : list Video)
      (aspect resolution : Z * Z) (fps : Z) (output_dir : Path)
      (prefix : string) (w : world) :
  video_file_clip video_path = Ok base ->
  Forall2 (fun seg v => render base aspect resolution fps seg = Ok v)
          segments videos ->
  process_segments video_path segments aspect resolution fps output_dir
    prefix w
  = (Ok (artifact_names output_dir prefix (List.length segments)),
     World (written w
            ++ combine (artifact_names output_dir prefix
                          (List.length segments)) videos)
           (open_clips w)).
Proof.
  intros Hopen Hall. unfold process_segments, seq_run, open_clip.
  rewrite Hopen.
  rewrite (segments_loop_all base aspect resolution fps output_dir prefix
             segments videos Hall).
  reflexivity.
Qed.

(** When every step goes through, [main] writes one file per segment under
    the prefix inferred from the source, prints the notice and the paths in
    order, removes the temporary directory, and moves the source next to the
    artifacts only when asked to and when the renaming goes through. *)
Theorem main_creates (args : arguments) (typed : string) (tmp p : Path)
        (aspect resolution : Z * Z) (clip : Clip)
        (segments : list segment) (videos : list Video) (s : session) :
  ratio_from_string (arg_aspect args) = Ok aspect ->
  mkdir (path_of (arg_output args)) = Ok tt ->
  ydl_fetch (arg_url args) tmp = Ok p ->
  video_file_clip (chosen_file p) = Ok clip ->
  parse_segments (spec_of args typed) (clip_duration clip) = Ok segments ->
  segments <> [] ->
  resolution_from_arg (arg_resolution args) aspect = Ok resolution ->
  Forall2 (fun seg v =>
             render clip aspect resolution (arg_fps args) seg = Ok v)
          segments videos ->
  let out := path_of (arg_output args) in
  let prefix := infer_prefix (path_stem (chosen_file p)) in
  let names := artifact_names out prefix (List.length segments) in
  let kept := joinpath out (prefix ++ "_source.mp4")%string in
  exists s',
    main args typed tmp s = (Ok Finished, s') /\
    written (media s') = written (media s) ++ combine names videos /\
    open_clips (media s') = open_clips (media s) /\
    shown s' = shown s ++ prompts args (clip_duration clip)
                       ++ [Created] ++ map ShowPath names /\
    removed s' = removed s ++ [tmp] /\
    moved s' = if arg_keep args
               then match os_rename (chosen_file p) kept with
                    | Ok _ => moved s ++ [(chosen_file p, kept)]
                    | Raise _ => moved s
                    end
               else moved s.
Proof.
  intros Hasp Hdir Hfetch Hopen Hparse Hne Hres Hall out prefix names kept.
  rewrite (main_prelude args typed tmp p aspect clip s Hasp Hdir Hfetch Hopen).
  unfold with_temporary.
  erewrite then_ok by (unfold check; rewrite Hparse; reflexivity).
  destruct segments as [|seg rest]; [congruence|].
  erewrite then_ok by (unfold check; rewrite Hres; reflexivity).
  erewrite then_ok
    by (unfold on_media;
        rewrite (process_segments_ok (chosen_file p) clip (seg :: rest) videos
                   aspect resolution (arg_fps args) out prefix _ Hopen Hall);
        reflexivity).
  fold out. fold prefix. fold kept. fold names.
  destruct (arg_keep args).
  - unfold then_act at 1, rename_quietly.
    destruct (os_rename (chosen_file p) kept);
      unfold then_act, say; rewrite say_paths_all;
      eexists; (split; [reflexivity|]);
      unfold done, say_in, fetched_session;
      cbn [media fetched made moved removed shown written open_clips];
      rewrite <- ?app_assoc; repeat split; reflexivity.
  - unfold then_act, say, done. rewrite say_paths_all.
    eexists. split; [reflexivity|].
    unfold say_in, fetched_session.
    cbn [media fetched made moved removed shown written open_clips].
    rewrite <- ?app_assoc. repeat split; reflexivity.
Qed.

(** [process] once the fields are read, the directories made, the source
    fetched and its duration read. *)
Lemma process_prelude (form : string -> option string) (fps : Z)
      (aspect : Z * Z) (p : Path) (clip : Clip) (s : session) :
  let url := strip (form_get form "url" "") in
  py_int (form_get form "fps" "30") = Ok fps ->
  url <> EmptyString ->
  mkdir (path_of "output") = Ok tt ->
  ratio_from_string (strip (form_get form "aspect" "9:16")) = Ok aspect ->
  mkdir (path_of ".tmp") = Ok tt ->
  ydl_fetch url (path_of ".tmp") = Ok p ->
  video_file_clip (chosen_file p) = Ok clip ->
  process form s
  = (if is_empty (strip (form_get form "segments" ""))
     then _ <~~ say NeedSegments ;; done Redirect
     else
       segments <~~ check (parse_segments
                             (strip (form_get form "segments" ""))
                             (clip_duration clip)) ;;
       resolution <~~ check (resolution_from_arg
                               (or_none (strip (form_get form "resolution" "")))
                               aspect) ;;
       outputs <~~ on_media
                     (process_segments (chosen_file p) segments aspect
                        resolution fps (path_of "output")
                        (infer_prefix (path_stem (chosen_file p)))) ;;
       done (Page (map path_name outputs)))
      (fetched_session s [path_of "output"; path_of ".tmp"] url).
Proof.
  intros url Hfps Hurl Hout Hasp Htmp Hfetch Hopen. unfold process.
  fold url.
  erewrite then_ok by (unfold check; rewrite Hfps; reflexivity).
  assert (is_empty url = false) as -> by (now destruct url).
  cbv zeta.
  erewrite then_ok by (unfold make_dir; rewrite Hout; reflexivity).
  erewrite then_ok by (unfold check; rewrite Hasp; reflexivity).
  erewrite then_ok by (unfold make_dir; rewrite Htmp; reflexivity).
  erewrite then_ok by (apply download_video_ok; exact Hfetch).
  erewrite then_ok by (apply probe_duration_ok; exact Hopen).
  unfold fetched_session. cbn [media fetched made moved removed shown].
  now rewrite <- app_assoc.
Qed.


(** When every step goes through, the page lists the names of the files
    written, one per segment, and the directory of the download is left in
    place.  The form does not look at the number of segments: when none
    survives the duration, the page is empty, nothing is written and
    nothing is raised. *)
Theorem process_page (form : string -> option string) (fps : Z)
        (aspect resolution : Z * Z) (p : Path) (clip : Clip)
        (segments : list segment) (videos : list Video) (s : session) :
  let url := strip (form_get form "url" "") in
  let spec := strip (form_get form "segments" "") in
  py_int (form_get form "fps" "30") = Ok fps ->
  url <> EmptyString ->
  mkdir (path_of "output") = Ok tt ->
  ratio_from_string (strip (form_get form "aspect" "9:16")) = Ok aspect ->
  mkdir (path_of ".tmp") = Ok tt ->
  ydl_fetch url (path_of ".tmp") = Ok p ->
  video_file_clip (chosen_file p) = Ok clip ->
  spec <> EmptyString ->
  parse_segments spec (clip_duration clip) = Ok segments ->
  resolution_from_arg (or_none (strip (form_get form "resolution" "")))
    aspect = Ok resolution ->
  Forall2 (fun seg v => render clip aspect resolution fps seg = Ok v)
          segments videos ->
  let names := artifact_names (path_of "output")
                 (infer_prefix (path_stem (chosen_file p)))
                 (List.length segments) in
  exists s',
    process form s = (Ok (Page (map path_name names)), s') /\
    written (media s') = written (media s) ++ combine names videos /\
    open_clips (media s') = open_clips (media s) /\
    removed s' = removed s /\
    (segments = [] ->
     process form s = (Ok (Page []), s') /\ media s' = media s).
Proof.
  intros url spec Hfps Hurl Hout Hasp Htmp Hfetch Hopen Hspec Hparse Hres
         Hall names.
  rewrite (process_prelude form fps aspect p clip s
             Hfps Hurl Hout Hasp Htmp Hfetch Hopen).
  fold spec. assert (is_empty spec = false) as -> by (now destruct spec).
  erewrite then_ok by (unfold check; rewrite Hparse; reflexivity).
  erewrite then_ok by (unfold check; rewrite Hres; reflexivity).
  erewrite then_ok
    by (unfold on_media;
        rewrite (process_segments_ok (chosen_file p) clip segments videos
                   aspect resolution fps _ _ _ Hopen Hall);
        reflexivity).
  fold names. eexists. split; [reflexivity|].
  unfold fetched_session. cbn [media written open_clips removed].
  split; [reflexivity|]. split; [reflexivity|]. split; [reflexivity|].
  intros ->. inversion Hall; subst. subst names. unfold artifact_names.
  cbn [List.length names_from List.seq map combine].
  rewrite app_nil_r, world_same. split; reflexivity.
Qed.

End Pipeline.

Lemma download_video_choice_witness :
  download_video (host := demo_host) "" "tmp0" fresh
  = (Raise (ToolkitError "download"), fresh) /\
  exists q : @Path Demo.toolkit,
    download_video (host := demo_host) "https://example.test/v" "tmp0" fresh
    = (Ok q, @Session Demo.toolkit (World [] 0) ["https://example.test/v"]
               [] [] [] []) /\
    q = "tmp0/My  first clip.mp4".
Proof.
  split.
  - destruct (download_video_choice (host := demo_host) "" "tmp0" fresh)
      as [H _].
    apply H. reflexivity.
  - destruct (download_video_choice (host := demo_host)
                "https://example.test/v" "tmp0" fresh) as [_ H].
    destruct (H "tmp0/My  first clip.webm" eq_refl)
      as (q & Hd & [Hq|Hq] & _ & Hmiss).
    + exfalso. subst q.
      assert (path_exists (Host := demo_host)
                (with_suffix_mp4 (Host := demo_host)
                   "tmp0/My  first clip.webm") = false) as Hno
        by (apply Hmiss; reflexivity).
      vm_compute in Hno. discriminate.
    + exists q. split; [exact Hd|]. rewrite Hq. reflexivity.
Defined.

Lemma main_checks_late_witness :
  let bad_aspect := Arguments "https://example.test/v" (Some "0:10,30:45")
                      "tall" None 30 "output" false in
  let bad_spec := Arguments "https://example.test/v" (Some "0:10,45")
                    "9:16" (Some "1080*1920") 30 "output" false in
  let bad_resolution := Arguments "https://example.test/v" (Some "0:10,30:45")
                          "9:16" (Some "1080*1920") 30 "output" false in
  let after : @session Demo.toolkit :=
    @Session Demo.toolkit (World [] 0) ["https://example.test/v"]
      ["output"] [] ["tmp0"] [] in
  main (host := demo_host) bad_aspect "" "tmp0" fresh
  = (Raise InvalidRatio, fresh) /\
  main (host := demo_host) bad_spec "" "tmp0" fresh
  = (Raise (UnpackError 1), after) /\
  main (host := demo_host) bad_resolution "" "tmp0" fresh
  = (Raise InvalidResolution, after).
Proof.
  intros bad_aspect bad_spec bad_resolution after.
  pose (clip := Demo.DemoClip (PInt 0, PInt 50) (1920, 1080)).
  pose (p := "tmp0/My  first clip.webm" : @Path Demo.toolkit).
  split; [|split].
  - destruct (main_checks_late (host := demo_host) bad_aspect "" "tmp0" fresh)
      as [H _].
    apply H. reflexivity.
  - destruct (main_checks_late (host := demo_host) bad_spec "" "tmp0" fresh)
      as [_ H].
    destruct (H (9, 16) p clip eq_refl eq_refl eq_refl eq_refl)
      as (Hspec & _ & _ & _).
    apply (Hspec (UnpackError 1)). vm_compute. reflexivity.
  - destruct (main_checks_late (host := demo_host) bad_resolution "" "tmp0"
                fresh) as [_ H].
    destruct (H (9, 16) p clip eq_refl eq_refl eq_refl eq_refl)
      as (_ & Hres & _ & _).
    assert (exists seg rest,
              parse_segments (spec_of bad_resolution "")
                (clip_duration (Host := demo_host) clip) = Ok (seg :: rest))
      as (seg & rest & Hparse).
    { eexists. eexists. vm_compute. reflexivity. }
    apply (Hres seg rest InvalidResolution Hparse). reflexivity.
Defined.

Lemma main_without_segments_witness :
  let args := Arguments "https://example.test/v" None "9:16"
                (Some "1080*1920") 30 "output" true in
  main (host := demo_host) args " 50:60, 70-1:30 " "tmp0" fresh
  = (Ok (Exit 1),
     @Session Demo.toolkit (World [] 0) ["https://example.test/v"]
       ["output"] [] ["tmp0"]
       [ShowDuration (PInt 50); ShowHint; NoValidSegments]).
Proof.
  intros args.
  pose (clip := Demo.DemoClip (PInt 0, PInt 50) (1920, 1080)).
  pose (p := "tmp0/My  first clip.webm" : @Path Demo.toolkit).
  assert (parse_segments (spec_of args " 50:60, 70-1:30 ")
            (clip_duration (Host := demo_host) clip) = Ok []) as Hparse
    by (vm_compute; reflexivity).
  destruct (main_without_segments (host := demo_host) args " 50:60, 70-1:30 "
              "tmp0" p (9, 16) clip fresh eq_refl eq_refl eq_refl eq_refl
              Hparse) as [H _].
  exact H.
Defined.

Lemma main_creates_witness :
  let args := Arguments "https://example.test/v" (Some "0:10,30:45") "9:16"
                None 30 "output" true in
  let names : list (@Path Demo.toolkit) :=
    ["output/My_first_clip_part1.mp4"; "output/My_first_clip_part2.mp4"] in
  exists (videos : list (@Video Demo.toolkit))
         (s' : @session Demo.toolkit),
    main (host := demo_host) args "" "tmp0" fresh = (Ok Finished, s') /\
    written (media s') = combine names videos /\
    List.length videos = 2%nat /\
    shown s' = [Created;
                @ShowPath Demo.toolkit "output/My_first_clip_part1.mp4";
                @ShowPath Demo.toolkit "output/My_first_clip_part2.mp4"] /\
    removed s' = ["tmp0"] /\
    moved s' = [("tmp0/My  first clip.mp4",
                 "output/My_first_clip_source.mp4")].
Proof.
  intros args names.
  pose (clip := Demo.DemoClip (PInt 0, PInt 50) (1920, 1080)).
  pose (p := "tmp0/My  first clip.webm" : @Path Demo.toolkit).
  let l := eval vm_compute in
             (match parse_segments "0:10,30:45" (PInt 50) with
              | Ok l => l
              | Raise _ => []
              end) in
  pose (segments := l).
  assert (parse_segments (spec_of args "")
            (clip_duration (Host := demo_host) clip) = Ok segments) as Hparse
    by (vm_compute; reflexivity).
  assert (segments <> []) as Hne by discriminate.
  assert (exists videos : list (@Video Demo.toolkit),
            Forall2 (fun seg v =>
                       render (tk := Demo.toolkit) clip (9, 16) (1080, 1920)
                         (arg_fps args) seg = Ok v) segments videos)
    as [videos Hall].
  { eexists. subst segments.
    repeat (eapply Forall2_cons; [vm_compute; reflexivity|]).
    apply Forall2_nil. }
  destruct (main_creates (host := demo_host) args "" "tmp0" p (9, 16)
              (1080, 1920) clip segments videos fresh
              eq_refl eq_refl eq_refl eq_refl Hparse Hne eq_refl Hall)
    as (s' & Hmain & Hw & _ & Hs & Hr & Hm).
  exists videos, s'.
  split; [exact Hmain|]. split; [exact Hw|].
  split; [symmetry; exact (Forall2_length Hall)|].
  split; [exact Hs|]. split; [exact Hr|]. exact Hm.
Defined.


Lemma process_page_witness :
  let form := form_of [("url", " https://example.test/v ");
                       ("segments", "0:10,30:45"); ("fps", "24")] in
  let late := form_of [("url", "https://example.test/v");
                       ("segments", "50:60")] in
  let names : list (@Path Demo.toolkit) :=
    ["output/My_first_clip_part1.mp4"; "output/My_first_clip_part2.mp4"] in
  (exists (videos : list (@Video Demo.toolkit))
          (s' : @session Demo.toolkit),
     process (host := demo_host) form fresh
     = (Ok (Page ["My_first_clip_part1.mp4"; "My_first_clip_part2.mp4"]), s')
     /\ written (media s') = combine names videos
     /\ List.length videos = 2%nat
     /\ removed s' = []) /\
  (exists s' : @session Demo.toolkit,
     process (host := demo_host) late fresh = (Ok (Page []), s') /\
     media s' = World [] 0).
Proof.
  intros form late names.
  pose (clip := Demo.DemoClip (PInt 0, PInt 50) (1920, 1080)).
  pose (p := ".tmp/My  first clip.webm" : @Path Demo.toolkit).
  split.
  - let l := eval vm_compute in
               (match parse_segments "0:10,30:45" (PInt 50) with
                | Ok l => l
                | Raise _ => []
                end) in
    pose (segments := l).
    assert (exists videos : list (@Video Demo.toolkit),
              Forall2 (fun seg v =>
                         render (tk := Demo.toolkit) clip (9, 16) (1080, 1920)
                           24 seg = Ok v) segments videos)
      as [videos Hall].
    { eexists. subst segments.
      repeat (eapply Forall2_cons; [vm_compute; reflexivity|]).
      apply Forall2_nil. }
    assert (strip (form_get form "url" "") <> EmptyString) as Hurl
      by (vm_compute; discriminate).
    assert (strip (form_get form "segments" "") <> EmptyString) as Hspec
      by (vm_compute; discriminate).
    assert (parse_segments (strip (form_get form "segments" ""))
              (clip_duration (Host := demo_host) clip) = Ok segments)
      as Hparse by (vm_compute; reflexivity).
    destruct (process_page (host := demo_host) form 24 (9, 16) (1080, 1920)
                p clip segments videos fresh
                eq_refl Hurl eq_refl eq_refl eq_refl eq_refl eq_refl Hspec
                Hparse eq_refl Hall)
      as (s' & Hp & Hw & _ & Hr & _).
    exists videos, s'.
    split; [exact Hp|]. split; [exact Hw|].
    split; [symmetry; exact (Forall2_length Hall)|]. exact Hr.
  - assert (strip (form_get late "url" "") <> EmptyString) as Hurl
      by (vm_compute; discriminate).
    assert (strip (form_get late "segments" "") <> EmptyString) as Hspec
      by (vm_compute; discriminate).
    assert (parse_segments (strip (form_get late "segments" ""))
              (clip_duration (Host := demo_host) clip) = Ok [])
      as Hparse by (vm_compute; reflexivity).
    destruct (process_page (host := demo_host) late 30 (9, 16) (1080, 1920)
                p clip [] [] fresh
                eq_refl Hurl eq_refl eq_refl eq_refl eq_refl eq_refl Hspec
                Hparse eq_refl (Forall2_nil _))
      as (s' & _ & _ & _ & _ & Hnone).
    exists s'. exact (Hnone eq_refl).
Defined.

End FrontEndFacts.
